(** * The sync notifier of dendrite (syncapi/sync/notifier.go)

    A shallow embedding of [Notifier] and of its operations, and the
    properties of the fan-out fabric proved on it.

    Conventions of the embedding.
    - Every exported method of [Notifier] takes [streamLock] on entry and
      releases it on return, so each method is one atomic transition of
      the notifier; the lock itself is not represented.
    - [time.Time] is an integer count of nanoseconds; a method reads the
      clock once, and that reading is its [now] argument.
    - A [*UserDeviceStream] is a location in a store of stream cells; the
      registry holds locations, and so do listeners.  The store is the
      [heap] field added to the notifier record.
    - [Broadcast] and the two logging calls are the observable effects;
      each operation returns the list of the effects it performed, in
      order.
    - Go leaves the iteration order of a map unspecified.  The embedding
      iterates in the order of [map_to_list] and [elements]; the theorems
      speak of membership in a trace, and of lists of users only through
      [joinedUsers] itself. *)

From stdpp Require Import gmap strings list fin_maps.

Local Open Scope Z_scope.

(** ** Time *)

Definition Time := Z.

(** [time.Minute], in nanoseconds. *)
Definition Minute : Z := 60 * 1000000000.

(** ** Streaming tokens (types.StreamingToken) *)

Inductive Dimension := DimPDU | DimSendToDevice | DimKeyChange.

Record StreamingToken := MkToken {
  pdu : N;
  sendToDevice : N;
  keyChange : N
}.

Definition position (d : Dimension) (t : StreamingToken) : N :=
  match d with
  | DimPDU => pdu t
  | DimSendToDevice => sendToDevice t
  | DimKeyChange => keyChange t
  end.

(** Modelled from the spec: the merge of one dimension of two tokens
    ([types.StreamingToken] and its methods live in syncapi/types, which
    is not among the files embedded here).  Section 4.1: per-dimension maximum; a zero on either side is
    no contribution, so the other side wins; zero on both sides yields
    zero. *)
Definition mergePosition (mine other : N) : N :=
  if (other =? 0)%N then mine
  else if (mine =? 0)%N then other
  else N.max mine other.

(** Modelled from the spec: [StreamingToken.WithUpdates], the merge of
    section 4.1 applied to every dimension. *)
Definition WithUpdates (t other : StreamingToken) : StreamingToken :=
  {| pdu := mergePosition (pdu t) (pdu other);
     sendToDevice := mergePosition (sendToDevice t) (sendToDevice other);
     keyChange := mergePosition (keyChange t) (keyChange other) |}.

(** [token_le a b]: [b] is at least [a] in every dimension. *)
Definition token_le (a b : StreamingToken) : Prop :=
  ∀ d, (position d a ≤ position d b)%N.

(** [newer a b]: [a] is ahead of [b] in some dimension. *)
Definition newer (a b : StreamingToken) : bool :=
  (pdu b <? pdu a)%N || (sendToDevice b <? sendToDevice a)%N
  || (keyChange b <? keyChange a)%N.

(** ** User-device streams (UserDeviceStream) *)

Definition loc := positive.

(** Modelled from the spec: the cell of a [UserDeviceStream]
    (userstream.go is not among the files embedded here).  Section 3: the
    last broadcast token, a generation counter and [timeOfLastNonEmpty];
    identity is the pair of user and device. *)
Record UserDeviceStream := MkStream {
  UserID : string;
  DeviceID : string;
  pos : StreamingToken;
  generation : N;
  timeOfLastNonEmpty : Time
}.

(** Modelled from the spec: [NewUserDeviceStream(userID, deviceID,
    currPos)].  Section 3: a stream is created holding the current token;
    it starts at generation zero and is non-empty at its creation. *)
Definition NewUserDeviceStream (now : Time) (userID deviceID : string)
    (currPos : StreamingToken) : UserDeviceStream :=
  {| UserID := userID; DeviceID := deviceID; pos := currPos;
     generation := 0; timeOfLastNonEmpty := now |}.

(** Modelled from the spec: [UserDeviceStream.Broadcast].  Section 4.2:
    the stored token advances to the given one (no change when it is not
    newer on any dimension), the generation is bumped, and forward
    progress refreshes [timeOfLastNonEmpty]. *)
Definition Broadcast (now : Time) (newPos : StreamingToken)
    (s : UserDeviceStream) : UserDeviceStream :=
  let forward := newer newPos (pos s) in
  {| UserID := UserID s; DeviceID := DeviceID s;
     pos := if forward then newPos else pos s;
     generation := generation s + 1;
     timeOfLastNonEmpty := if forward then now else timeOfLastNonEmpty s |}.

(** Modelled from the spec: [UserDeviceStream.TimeOfLastNonEmpty], the
    reading used by the sweep (section 4.2). *)
Definition TimeOfLastNonEmpty (s : UserDeviceStream) : Time :=
  timeOfLastNonEmpty s.

(** Modelled from the spec: a listener is a handle on its stream that
    remembers the generation it saw when it was made (section 4.2); the
    cancellation signal plays no part in the notifier and is left out. *)
Record UserDeviceStreamListener := MkListener {
  userStream : loc;
  sinceGeneration : N
}.

(** Modelled from the spec: [UserDeviceStream.GetListener].  Section 4.4:
    a stream that was just handed to a reader has its last non-empty time
    refreshed. *)
Definition touch (now : Time) (s : UserDeviceStream) : UserDeviceStream :=
  {| UserID := UserID s; DeviceID := DeviceID s; pos := pos s;
     generation := generation s; timeOfLastNonEmpty := now |}.

(** ** Events (gomatrixserverlib.HeaderedEvent)

    Only what [OnNewEvent] reads of an event: its room, its type, its
    state key ([None] for a nil pointer) and the outcome of
    [Membership()], [None] when the content fails to parse. *)
Record HeaderedEvent := MkEvent {
  RoomID : string;
  Type_ : string;
  StateKey : option string;
  EventID : string;
  Membership : option string
}.

Definition Invite : string := "invite".
Definition Join : string := "join".
Definition Leave : string := "leave".
Definition Ban : string := "ban".

(** ** Effects *)

(** [Woke p newPos committed]: [Broadcast(newPos)] was called on the
    stream at [p]; [committed] records the notifier's [currPos] at the
    moment of the call. *)
Inductive Effect :=
  | Woke (p : loc) (newPos committed : StreamingToken)
  | LogError (msg : string)
  | LogWarn (msg : string).

Definition wokenOf (e : Effect) : option loc :=
  match e with Woke p _ _ => Some p | _ => None end.

(** The streams a trace broadcast to. *)
Definition woken (tr : list Effect) : list loc := omap wokenOf tr.

(** ** The notifier *)

(** A [userIDSet] is a [map[string]bool] in which [add] only ever stores
    [true] and [values] lists the keys: a finite set of user IDs. *)
Record Notifier := MkNotifier {
  roomIDToJoinedUsers : gmap string (gset string);
  currPos : StreamingToken;
  userDeviceStreams : gmap string (gmap string loc);
  lastCleanUpTime : Time;
  heap : gmap loc UserDeviceStream
}.

Definition setRooms (r : gmap string (gset string)) (n : Notifier) :=
  {| roomIDToJoinedUsers := r; currPos := currPos n;
     userDeviceStreams := userDeviceStreams n;
     lastCleanUpTime := lastCleanUpTime n; heap := heap n |}.

Definition setCurrPos (t : StreamingToken) (n : Notifier) :=
  {| roomIDToJoinedUsers := roomIDToJoinedUsers n; currPos := t;
     userDeviceStreams := userDeviceStreams n;
     lastCleanUpTime := lastCleanUpTime n; heap := heap n |}.

Definition setStreams (u : gmap string (gmap string loc)) (n : Notifier) :=
  {| roomIDToJoinedUsers := roomIDToJoinedUsers n; currPos := currPos n;
     userDeviceStreams := u;
     lastCleanUpTime := lastCleanUpTime n; heap := heap n |}.

Definition setLastCleanUp (t : Time) (n : Notifier) :=
  {| roomIDToJoinedUsers := roomIDToJoinedUsers n; currPos := currPos n;
     userDeviceStreams := userDeviceStreams n;
     lastCleanUpTime := t; heap := heap n |}.

Definition setHeap (h : gmap loc UserDeviceStream) (n : Notifier) :=
  {| roomIDToJoinedUsers := roomIDToJoinedUsers n; currPos := currPos n;
     userDeviceStreams := userDeviceStreams n;
     lastCleanUpTime := lastCleanUpTime n; heap := h |}.

(** [NewNotifier(pos)]. *)
Definition NewNotifier (now : Time) (p : StreamingToken) : Notifier :=
  {| roomIDToJoinedUsers := ∅; currPos := p; userDeviceStreams := ∅;
     lastCleanUpTime := now; heap := ∅ |}.

(** The stream registered for a user and device, if any. *)
Definition streamAt (n : Notifier) (userID deviceID : string) : option loc :=
  userDeviceStreams n !! userID ≫= λ byUser, byUser !! deviceID.

(** *** Sequencing of effectful steps *)

Definition Run := (Notifier * list Effect)%type.

Definition andThen (r : Run) (f : Notifier → Run) : Run :=
  let r' := f r.1 in (r'.1, r.2 ++ r'.2).

Fixpoint forEach {A} (l : list A) (f : A → Notifier → Run) (n : Notifier)
    : Run :=
  match l with
  | [] => (n, [])
  | x :: l' => andThen (f x n) (forEach l' f)
  end.

(** *** The membership index *)

(** [userIDSet.values] and [joinedUsers]. *)
Definition joinedUsers (n : Notifier) (roomID : string) : list string :=
  match roomIDToJoinedUsers n !! roomID with
  | None => []
  | Some s => elements s
  end.

(** The set stored for a room once [make(userIDSet)] has filled a missing
    entry. *)
Definition roomSet (n : Notifier) (roomID : string) : gset string :=
  default ∅ (roomIDToJoinedUsers n !! roomID).

Definition addJoinedUser (roomID userID : string) (n : Notifier) : Notifier :=
  setRooms (<[roomID := {[userID]} ∪ roomSet n roomID]>
              (roomIDToJoinedUsers n)) n.

Definition removeJoinedUser (roomID userID : string) (n : Notifier)
    : Notifier :=
  setRooms (<[roomID := roomSet n roomID ∖ {[userID]}]>
              (roomIDToJoinedUsers n)) n.

(** [setUsersJoinedToRooms], the bulk form of [addJoinedUser]. *)
Definition setUsersJoinedToRooms
    (roomIDToUserIDs : gmap string (list string)) (n : Notifier) : Notifier :=
  foldl (λ n '(roomID, userIDs),
           foldl (λ n userID, addJoinedUser roomID userID n)
                 (setRooms (<[roomID := roomSet n roomID]>
                              (roomIDToJoinedUsers n)) n)
                 userIDs)
        n (map_to_list roomIDToUserIDs).

(** *** Waking streams *)

(** [stream.Broadcast(newPos)] on the stream at [p]. *)
Definition broadcastOn (now : Time) (p : loc) (newPos : StreamingToken)
    (n : Notifier) : Run :=
  (setHeap (alter (Broadcast now newPos) p (heap n)) n,
   [Woke p newPos (currPos n)]).

(** [fetchUserStreams]: all the streams of a user, none when the user has
    no entry. *)
Definition fetchUserStreams (n : Notifier) (userID : string) : list loc :=
  match userDeviceStreams n !! userID with
  | None => []
  | Some user => (map_to_list user).*2
  end.

(** [wakeupUsers].  The registry only holds allocated streams, so the
    nil test of the inner loop never fires. *)
Definition wakeupUsers (now : Time) (userIDs : list string)
    (newPos : StreamingToken) : Notifier → Run :=
  forEach userIDs (λ userID n,
    forEach (fetchUserStreams n userID)
            (λ stream, broadcastOn now stream newPos) n).

(** Lines 234-244 of [fetchUserDeviceStream]: the lookup in the device
    table [byUser] of the user, which is present in the registry. *)
Definition fetchDevice (now : Time) (userID deviceID : string)
    (makeIfNotExists : bool) (byUser : gmap string loc) (n : Notifier)
    : option loc * Notifier :=
  match byUser !! deviceID with
  | Some stream => (Some stream, n)
  | None =>
      if makeIfNotExists then
        let stream := fresh (dom (heap n)) in
        (Some stream,
         setStreams (<[userID := <[deviceID := stream]> byUser]>
                       (userDeviceStreams n))
           (setHeap (<[stream := NewUserDeviceStream now userID deviceID
                                   (currPos n)]> (heap n)) n))
      else (None, n)
  end.

(** [fetchUserDeviceStream]; [None] is the nil pointer. *)
Definition fetchUserDeviceStream (now : Time) (userID deviceID : string)
    (makeIfNotExists : bool) (n : Notifier) : option loc * Notifier :=
  match userDeviceStreams n !! userID with
  | None =>
      if makeIfNotExists then
        fetchDevice now userID deviceID makeIfNotExists ∅
          (setStreams (<[userID := ∅]> (userDeviceStreams n)) n)
      else (None, n)
  | Some byUser => fetchDevice now userID deviceID makeIfNotExists byUser n
  end.

(** [wakeupUserDevice]. *)
Definition wakeupUserDevice (now : Time) (userID : string)
    (deviceIDs : list string) (newPos : StreamingToken) : Notifier → Run :=
  forEach deviceIDs (λ deviceID n,
    match fetchUserDeviceStream now userID deviceID false n with
    | (Some stream, n') => broadcastOn now stream newPos n'
    | (None, n') => (n', [])
    end).

(** *** The sweep of idle streams *)

(** [stream.TimeOfLastNonEmpty().Before(deleteBefore)] for the stream at
    [p]. *)
Definition idleBefore (h : gmap loc UserDeviceStream) (deleteBefore : Time)
    (p : loc) : bool :=
  match h !! p with
  | Some s => bool_decide (TimeOfLastNonEmpty s < deleteBefore)
  | None => false
  end.

(** [n.userDeviceStreams[user]]: the nil map when the user has no entry. *)
Definition deviceTable (streams : gmap string (gmap string loc))
    (user : string) : gmap string loc :=
  default ∅ (streams !! user).

(** The body of the inner loop of [removeEmptyUserStreams]. *)
Definition sweepDevice (h : gmap loc UserDeviceStream) (deleteBefore : Time)
    (user : string) (streams : gmap string (gmap string loc))
    (entry : string * loc) : gmap string (gmap string loc) :=
  let streams1 :=
    if idleBefore h deleteBefore entry.2
    then alter (delete entry.1) user streams
    else streams in
  if decide (size (deviceTable streams1 user) = 0%nat)
  then delete user streams1
  else streams1.

(** The body of the outer loop. *)
Definition sweepUser (h : gmap loc UserDeviceStream) (deleteBefore : Time)
    (streams : gmap string (gmap string loc))
    (entry : string * gmap string loc) : gmap string (gmap string loc) :=
  foldl (sweepDevice h deleteBefore entry.1) streams (map_to_list entry.2).

Definition sweep (h : gmap loc UserDeviceStream) (deleteBefore : Time)
    (streams : gmap string (gmap string loc))
    : gmap string (gmap string loc) :=
  foldl (sweepUser h deleteBefore) streams (map_to_list streams).

(** [removeEmptyUserStreams]. *)
Definition removeEmptyUserStreams (now : Time) (n : Notifier) : Notifier :=
  if bool_decide (now < lastCleanUpTime n + Minute) then n
  else
    let deleteBefore := now + (-5) * Minute in
    setStreams (sweep (heap n) deleteBefore (userDeviceStreams n))
               (setLastCleanUp now n).

(** *** Ingress *)

Definition MRoomMember : string := "m.room.member".

Definition noRecipientWarning : string :=
  "Notifier.OnNewEvent called but caller supplied no user to wake up".

Definition unmarshalError : string :=
  "Notifier.OnNewEvent: Failed to unmarshal member event".

(** Lines 84-109 of [OnNewEvent]: the users to notify for an event, with
    the edit of the membership index that a member event asks for. *)
Definition routeEvent (ev : HeaderedEvent) (n : Notifier)
    : list string * Run :=
  let usersToNotify := joinedUsers n (RoomID ev) in
  if decide (Type_ ev = MRoomMember) then
    match StateKey ev with
    | None => (usersToNotify, (n, []))
    | Some targetUserID =>
        match Membership ev with
        | None => (usersToNotify, (n, [LogError unmarshalError]))
        | Some membership =>
            if decide (membership = Invite) then
              (usersToNotify ++ [targetUserID], (n, []))
            else if decide (membership = Join) then
              (usersToNotify ++ [targetUserID],
               (addJoinedUser (RoomID ev) targetUserID n, []))
            else if decide (membership = Leave) then
              (usersToNotify,
               (removeJoinedUser (RoomID ev) targetUserID n, []))
            else if decide (membership = Ban) then
              (usersToNotify,
               (removeJoinedUser (RoomID ev) targetUserID n, []))
            else (usersToNotify, (n, []))
        end
    end
  else (usersToNotify, (n, [])).

(** [OnNewEvent]; [ev = None] is the nil event. *)
Definition OnNewEvent (now : Time) (ev : option HeaderedEvent)
    (roomID : string) (userIDs : list string) (posUpdate : StreamingToken)
    (n : Notifier) : Run :=
  let latestPos := WithUpdates (currPos n) posUpdate in
  let n := setCurrPos latestPos n in
  let n := removeEmptyUserStreams now n in
  match ev with
  | Some ev =>
      let routed := routeEvent ev n in
      andThen routed.2 (wakeupUsers now routed.1 latestPos)
  | None =>
      if decide (roomID ≠ "") then
        wakeupUsers now (joinedUsers n roomID) latestPos n
      else if decide (0 < length userIDs)%nat then
        wakeupUsers now userIDs latestPos n
      else (n, [LogWarn noRecipientWarning])
  end.

(** [OnNewSendToDevice]. *)
Definition OnNewSendToDevice (now : Time) (userID : string)
    (deviceIDs : list string) (posUpdate : StreamingToken) (n : Notifier)
    : Run :=
  let latestPos := WithUpdates (currPos n) posUpdate in
  let n := setCurrPos latestPos n in
  wakeupUserDevice now userID deviceIDs latestPos n.

(** [OnNewKeyChange]. *)
Definition OnNewKeyChange (now : Time) (posUpdate : StreamingToken)
    (wakeUserID keyChangeUserID : string) (n : Notifier) : Run :=
  let latestPos := WithUpdates (currPos n) posUpdate in
  let n := setCurrPos latestPos n in
  wakeupUsers now [wakeUserID] latestPos n.

(** *** Readers *)

(** What [GetListener] reads of a [syncRequest]: [req.device.UserID] and
    [req.device.ID]. *)
Record syncRequest := MkRequest {
  deviceUserID : string;
  deviceDeviceID : string
}.

(** [stream.GetListener(ctx)] on the stream at [p]. *)
Definition streamListener (now : Time) (p : loc) (n : Notifier)
    : UserDeviceStreamListener * Notifier :=
  ({| userStream := p;
      sinceGeneration := from_option generation 0%N (heap n !! p) |},
   setHeap (alter (touch now) p (heap n)) n).

(** [GetListener]; the result is [None] where the Go code would call a
    method on a nil stream. *)
Definition GetListener (now : Time) (req : syncRequest) (n : Notifier)
    : option UserDeviceStreamListener * Notifier :=
  let n := removeEmptyUserStreams now n in
  match fetchUserDeviceStream now (deviceUserID req) (deviceDeviceID req)
          true n with
  | (Some stream, n') =>
      let r := streamListener now stream n' in (Some r.1, r.2)
  | (None, n') => (None, n')
  end.

(** [Load]; the argument is what [db.AllJoinedUsersInRooms] returned,
    [None] for an error. *)
Definition Load (roomToUsers : option (gmap string (list string)))
    (n : Notifier) : Notifier :=
  match roomToUsers with
  | None => n
  | Some m => setUsersJoinedToRooms m n
  end.

(** [CurrentPosition]. *)
Definition CurrentPosition (n : Notifier) : StreamingToken := currPos n.

(** ** Histories of calls *)

Inductive Ingress :=
  | NewEvent (ev : option HeaderedEvent) (roomID : string)
      (userIDs : list string) (posUpdate : StreamingToken)
  | NewSendToDevice (userID : string) (deviceIDs : list string)
      (posUpdate : StreamingToken)
  | NewKeyChange (posUpdate : StreamingToken)
      (wakeUserID keyChangeUserID : string).

Inductive Call :=
  | Produce (i : Ingress)
  | Listen (req : syncRequest)
  | LoadRooms (roomToUsers : option (gmap string (list string))).

Definition ingress (now : Time) (i : Ingress) (n : Notifier) : Run :=
  match i with
  | NewEvent ev roomID userIDs posUpdate =>
      OnNewEvent now ev roomID userIDs posUpdate n
  | NewSendToDevice userID deviceIDs posUpdate =>
      OnNewSendToDevice now userID deviceIDs posUpdate n
  | NewKeyChange posUpdate wakeUserID keyChangeUserID =>
      OnNewKeyChange now posUpdate wakeUserID keyChangeUserID n
  end.

Definition posUpdateOf (i : Ingress) : StreamingToken :=
  match i with
  | NewEvent _ _ _ posUpdate => posUpdate
  | NewSendToDevice _ _ posUpdate => posUpdate
  | NewKeyChange posUpdate _ _ => posUpdate
  end.

(** One call, made when the clock reads [c.1]. *)
Definition call (c : Time * Call) (n : Notifier) : Notifier :=
  match c.2 with
  | Produce i => (ingress c.1 i n).1
  | Listen req => (GetListener c.1 req n).2
  | LoadRooms r => Load r n
  end.

Definition calls (cs : list (Time * Call)) (n : Notifier) : Notifier :=
  foldl (λ n c, call c n) n cs.

(** The states a notifier made by [NewNotifier] can be in. *)
Inductive reachable : Notifier → Prop :=
  | reachable_new now p : reachable (NewNotifier now p)
  | reachable_call c n : reachable n → reachable (call c n).

(** ** Notions used in the statements *)

(** The store after [Broadcast] has been called on each of [ps] in turn. *)
Definition broadcastHeap (now : Time) (newPos : StreamingToken)
    (ps : list loc) (h : gmap loc UserDeviceStream)
    : gmap loc UserDeviceStream :=
  foldl (λ h p, alter (Broadcast now newPos) p h) h ps.

(** The streams of a list of users, in the order [wakeupUsers] visits
    them. *)
Definition streamsOf (n : Notifier) (userIDs : list string) : list loc :=
  userIDs ≫= fetchUserStreams n.

(** The streams of the listed devices of a user that are registered. *)
Definition devicesOf (n : Notifier) (userID : string)
    (deviceIDs : list string) : list loc :=
  omap (streamAt n userID) deviceIDs.

(** The sweep seen from one user's entry of the registry: what one turn
    of the inner loop does to it ([None]: the user has no entry). *)
Definition normalize (m : gmap string loc) : option (gmap string loc) :=
  if decide (m = ∅) then None else Some m.

Definition sweepEntry (h : gmap loc UserDeviceStream) (deleteBefore : Time)
    (o : option (gmap string loc)) (entry : string * loc)
    : option (gmap string loc) :=
  let o1 := if idleBefore h deleteBefore entry.2
            then delete entry.1 <$> o else o in
  if decide (size (default ∅ o1) = 0%nat) then None else o1.

(** The streams of a device table that the sweep keeps. *)
Definition kept (h : gmap loc UserDeviceStream) (deleteBefore : Time)
    (m : gmap string loc) : gmap string loc :=
  filter (λ e, idleBefore h deleteBefore e.2 = false) m.

(** What the sweep leaves of a user's entry [m]. *)
Definition sweptEntry (h : gmap loc UserDeviceStream) (deleteBefore : Time)
    (m : gmap string loc) : option (gmap string loc) :=
  if decide (m = ∅) then Some m else normalize (kept h deleteBefore m).

(** [onlyRooms n n']: [n'] differs from [n] in the membership index at
    most. *)
Definition onlyRooms (n n' : Notifier) : Prop :=
  currPos n' = currPos n
  ∧ userDeviceStreams n' = userDeviceStreams n
  ∧ lastCleanUpTime n' = lastCleanUpTime n
  ∧ heap n' = heap n.

(** The notifier of [OnNewEvent] once the token is advanced and the sweep
    has run, before any routing. *)
Definition advanced (now : Time) (posUpdate : StreamingToken)
    (n : Notifier) : Notifier :=
  removeEmptyUserStreams now
    (setCurrPos (WithUpdates (currPos n) posUpdate) n).

(** The list [usersToNotify] that [OnNewEvent] hands to [wakeupUsers]
    for an event. *)
Definition usersToNotify (now : Time) (ev : HeaderedEvent)
    (posUpdate : StreamingToken) (n : Notifier) : list string :=
  (routeEvent ev (advanced now posUpdate n)).1.

(** [wakesUsers r us]: the streams the run [r] broadcast to are the
    streams that the registry it leaves holds for the users [us]. *)
Definition wakesUsers (r : Run) (us : list string) : Prop :=
  ∀ p, p ∈ woken r.2 ↔ ∃ u d, u ∈ us ∧ streamAt r.1 u d = Some p.

(** Every broadcast of a trace carries [t], and [t] was the current
    token when it was issued. *)
Definition carries (t : StreamingToken) (tr : list Effect) : Prop :=
  ∀ p newPos committed,
    Woke p newPos committed ∈ tr → newPos = t ∧ committed = t.

(** Every registered stream has a cell in the store, and the cell bears
    the user and device it is registered for. *)
Definition registryOK (n : Notifier) : Prop :=
  ∀ u d p, streamAt n u d = Some p →
    ∃ s, heap n !! p = Some s ∧ UserID s = u ∧ DeviceID s = d.

(** The calls that run the sweep. *)
Definition sweeps (c : Call) : bool :=
  match c with
  | Produce (NewEvent _ _ _ _) => true
  | Listen _ => true
  | _ => false
  end.

(** [noEviction u d cs n]: along the calls [cs] made from [n], no sweep
    removes the stream of device [d] of user [u] from the registry. *)
Fixpoint noEviction (u d : string) (cs : list (Time * Call)) (n : Notifier)
    : Prop :=
  match cs with
  | [] => True
  | c :: cs' =>
      (sweeps c.2 = true →
       is_Some (streamAt (removeEmptyUserStreams c.1 n) u d))
      ∧ noEviction u d cs' (call c n)
  end.

(** [sameIdentity h h']: every cell of [h] is still in [h'], for the same
    user and device. *)
Definition sameIdentity (h h' : gmap loc UserDeviceStream) : Prop :=
  ∀ p s, h !! p = Some s →
    ∃ s', h' !! p = Some s' ∧ UserID s' = UserID s ∧ DeviceID s' = DeviceID s.

(** ** A small history, for concrete checks *)

Definition zeroToken : StreamingToken := MkToken 0 0 0.

(** Room [!r1] with [@u1] joined; [@u1] listens on devices [d1] and [d2],
    [@u2] on [d1]. *)
Definition sampleNotifier : Notifier :=
  calls [(0, LoadRooms (Some {["!r1" := ["@u1"]]}));
         (0, Listen (MkRequest "@u1" "d1"));
         (0, Listen (MkRequest "@u1" "d2"));
         (0, Listen (MkRequest "@u2" "d1"))]
        (NewNotifier 0 zeroToken).

Definition memberEvent (target : string) (membership : option string)
    : HeaderedEvent :=
  {| RoomID := "!r1"; Type_ := MRoomMember; StateKey := Some target;
     EventID := "$e1"; Membership := membership |}.

(** ** Notions used for whole histories *)

(** The streams the registry holds, over all users and devices. *)
Definition registeredStreams (n : Notifier) : list loc :=
  map_to_list (userDeviceStreams n) ≫= λ entry, (map_to_list entry.2).*2.

(** The effects of one call, and of a history of calls made from [n]. *)
Definition callEffects (c : Time * Call) (n : Notifier) : list Effect :=
  match c.2 with
  | Produce i => (ingress c.1 i n).2
  | _ => []
  end.

Fixpoint effects (cs : list (Time * Call)) (n : Notifier) : list Effect :=
  match cs with
  | [] => []
  | c :: cs' => callEffects c n ++ effects cs' (call c n)
  end.

(** No user of the registry has an empty device table. *)
Definition tablesNonEmpty (n : Notifier) : Prop :=
  ∀ u m, userDeviceStreams n !! u = Some m → m ≠ ∅.

(** An event that edits the membership index: a member event with a
    state key whose membership is join, leave or ban. *)
Definition isTransition (ev : HeaderedEvent) : Prop :=
  Type_ ev = MRoomMember ∧ is_Some (StateKey ev)
  ∧ (Membership ev = Some Join ∨ Membership ev = Some Leave
     ∨ Membership ev = Some Ban).

(** A plain message in room [!r1]. *)
Definition messageEvent : HeaderedEvent :=
  {| RoomID := "!r1"; Type_ := "m.room.message"; StateKey := None;
     EventID := "$e2"; Membership := None |}.

(** * The checks of the configuration (config.go)

    [check] and what it calls.  Of the [Dendrite] record only the fields
    that [check] reads are kept: the version and the logging hooks, and
    of a hook its type and level.  [fmt.Sprintf] belongs to the Go
    library: the renderings of its verbs are parameters. *)
Module Config.

(** [Version], the current version of the config format. *)
Definition Version : Z := 1.

Record LogrusHook := MkHook {
  Type_ : string;
  Level : string
}.

Record Dendrite := MkDendrite {
  Version_ : Z;
  Logging : list LogrusHook
}.

Definition configErrors := list string.

Section Sprintf.
(** [%q] of a string, [%q] of an integer and [%d]. *)
Variable quoted : string → string.
Variable quotedInt : Z → string.
Variable decimal : Z → string.

(** [configErrors.Error]; [None] where the Go code indexes an empty
    slice and panics. *)
Definition Error (errs : configErrors) : option string :=
  match errs with
  | [] => None
  | [e] => Some e
  | e :: _ =>
      Some (e +:+ " (and " +:+ decimal (Z.of_nat (length errs) - 1)
              +:+ " other problems)")
  end.

(** [configErrors.Add]. *)
Definition Add (str : string) (errs : configErrors) : configErrors :=
  errs ++ [str].

Definition checkNotEmpty (key value : string) (errs : configErrors)
    : configErrors :=
  if decide (value = "") then Add ("missing config key " +:+ quoted key) errs
  else errs.

Definition checkNotZero (key : string) (value : Z) (errs : configErrors)
    : configErrors :=
  if decide (value = 0) then Add ("missing config key " +:+ quoted key) errs
  else errs.

Definition checkPositive (key : string) (value : Z) (errs : configErrors)
    : configErrors :=
  if decide (value < 0) then
    Add ("invalid value for config key " +:+ quoted key +:+ ": "
           +:+ decimal value) errs
  else errs.

Definition checkLogging (config : Dendrite) (errs : configErrors)
    : configErrors :=
  foldl (λ errs logrusHook,
           checkNotEmpty "logging.level" (Level logrusHook)
             (checkNotEmpty "logging.type" (Type_ logrusHook) errs))
        errs (Logging config).

(** [check]; [None] is the nil error. *)
Definition check (config : Dendrite) : option configErrors :=
  if decide (Version_ config ≠ Version) then
    Some (Add ("unknown config version " +:+ quotedInt (Version_ config)
                 +:+ ", expected " +:+ quotedInt Version) [])
  else
    match checkLogging config [] with
    | [] => None
    | errs => Some errs
    end.

(** The errors [checkLogging] reports for one hook. *)
Definition hookErrors (h : LogrusHook) : list string :=
  (if decide (Type_ h = "")
   then ["missing config key " +:+ quoted "logging.type"] else [])
  ++ (if decide (Level h = "")
      then ["missing config key " +:+ quoted "logging.level"] else []).
End Sprintf.

End Config.

(** * Properties *)

(** ** Tokens *)

Lemma mergePosition_max (a b : N) : mergePosition a b = N.max a b.
Proof.
  unfold mergePosition.
  destruct (N.eqb_spec b 0) as [-> | Hb]; [lia |].
  destruct (N.eqb_spec a 0) as [-> | Ha]; lia.
Qed.

Lemma position_WithUpdates d t other :
  position d (WithUpdates t other) = N.max (position d t) (position d other).
Proof. destruct d; simpl; apply mergePosition_max. Qed.

Lemma token_le_refl t : token_le t t.
Proof. intros d. lia. Qed.

Lemma token_le_trans a b c : token_le a b → token_le b c → token_le a c.
Proof. intros Hab Hbc d. specialize (Hab d). specialize (Hbc d). lia. Qed.

Lemma WithUpdates_le t other : token_le t (WithUpdates t other).
Proof. intros d. rewrite position_WithUpdates. lia. Qed.

(** ** Waking a list of streams *)

Lemma broadcastHeap_app now newPos ps qs h :
  broadcastHeap now newPos (ps ++ qs) h
  = broadcastHeap now newPos qs (broadcastHeap now newPos ps h).
Proof. apply foldl_app. Qed.

Lemma broadcastHeap_other now newPos ps h p :
  p ∉ ps → broadcastHeap now newPos ps h !! p = h !! p.
Proof.
  revert h. induction ps as [| q ps IH]; intros h Hp; [done |].
  apply not_elem_of_cons in Hp as [Hne Hp]. simpl.
  rewrite IH by done. by apply lookup_alter_ne.
Qed.

Lemma broadcastHeap_dom now newPos ps h :
  dom (broadcastHeap now newPos ps h) = dom h.
Proof.
  revert h. induction ps as [| q ps IH]; intros h; [done |].
  simpl. rewrite IH. apply dom_alter_L.
Qed.

Lemma broadcastAll_run now newPos ps n :
  forEach ps (λ p, broadcastOn now p newPos) n
  = (setHeap (broadcastHeap now newPos ps (heap n)) n,
     (λ p, Woke p newPos (currPos n)) <$> ps).
Proof.
  revert n. induction ps as [| p ps IH]; intros n.
  - by destruct n.
  - simpl. unfold andThen. rewrite IH. reflexivity.
Qed.

Lemma woken_Woke newPos committed ps :
  woken ((λ p, Woke p newPos committed) <$> ps) = ps.
Proof.
  unfold woken. induction ps as [| p ps IH]; [done |].
  simpl. f_equal. exact IH.
Qed.

Lemma woken_app tr1 tr2 : woken (tr1 ++ tr2) = woken tr1 ++ woken tr2.
Proof. apply omap_app. Qed.

Lemma elem_of_fetchUserStreams n u p :
  p ∈ fetchUserStreams n u ↔ ∃ d, streamAt n u d = Some p.
Proof.
  unfold fetchUserStreams, streamAt.
  destruct (userDeviceStreams n !! u) as [m |]; simpl.
  - rewrite list_elem_of_fmap. split.
    + intros [[d q] [-> Hin]]. exists d. by apply elem_of_map_to_list in Hin.
    + intros [d Hd]. exists (d, p). split; [done |].
      by apply elem_of_map_to_list.
  - split; [by intros ?%elem_of_nil | by intros [? ?]].
Qed.

Lemma elem_of_streamsOf n us p :
  p ∈ streamsOf n us ↔ ∃ u d, u ∈ us ∧ streamAt n u d = Some p.
Proof.
  unfold streamsOf. rewrite list_elem_of_bind. split.
  - intros (u & Hp & Hu). apply elem_of_fetchUserStreams in Hp as [d Hd].
    eauto.
  - intros (u & d & Hu & Hd). exists u. split; [| done].
    apply elem_of_fetchUserStreams. eauto.
Qed.

Lemma wakeupUsers_run now us newPos n :
  wakeupUsers now us newPos n
  = (setHeap (broadcastHeap now newPos (streamsOf n us) (heap n)) n,
     (λ p, Woke p newPos (currPos n)) <$> streamsOf n us).
Proof.
  unfold wakeupUsers, streamsOf. revert n.
  induction us as [| u us IH]; intros n.
  - by destruct n.
  - cbn [forEach]. unfold andThen. rewrite broadcastAll_run. cbn [fst snd].
    rewrite IH. cbn [mbind list_bind]. rewrite broadcastHeap_app, fmap_app.
    reflexivity.
Qed.

Lemma fetchUserDeviceStream_lookup now u d n :
  fetchUserDeviceStream now u d false n = (streamAt n u d, n).
Proof.
  unfold fetchUserDeviceStream, fetchDevice, streamAt.
  destruct (userDeviceStreams n !! u) as [m |]; simpl; [| done].
  by destruct (m !! d).
Qed.

Lemma elem_of_devicesOf n u ds p :
  p ∈ devicesOf n u ds ↔ ∃ d, d ∈ ds ∧ streamAt n u d = Some p.
Proof. apply list_elem_of_omap. Qed.

Lemma wakeupUserDevice_run now u ds newPos n :
  wakeupUserDevice now u ds newPos n
  = (setHeap (broadcastHeap now newPos (devicesOf n u ds) (heap n)) n,
     (λ p, Woke p newPos (currPos n)) <$> devicesOf n u ds).
Proof.
  unfold wakeupUserDevice, devicesOf. revert n.
  induction ds as [| d ds IH]; intros n.
  - by destruct n.
  - cbn [forEach]. unfold andThen. rewrite fetchUserDeviceStream_lookup.
    cbn [omap list_omap].
    destruct (streamAt n u d) as [p |] eqn:Hd.
    + cbn [fst snd broadcastOn]. rewrite IH. reflexivity.
    + cbn [fst snd]. rewrite IH. reflexivity.
Qed.

(** ** The sweep *)

Lemma sweepDevice_other h db user streams e u :
  u ≠ user → sweepDevice h db user streams e !! u = streams !! u.
Proof.
  intros Hne. unfold sweepDevice.
  destruct (idleBefore h db e.2); case_decide;
    rewrite ?lookup_delete_ne, ?lookup_alter_ne by done; done.
Qed.

Lemma sweepDevice_entry h db user streams e :
  sweepDevice h db user streams e !! user
  = sweepEntry h db (streams !! user) e.
Proof.
  unfold sweepDevice, sweepEntry, deviceTable.
  destruct (idleBefore h db e.2).
  - rewrite lookup_alter_eq. case_decide.
    + by rewrite lookup_delete_eq.
    + by rewrite lookup_alter_eq.
  - case_decide; [by rewrite lookup_delete_eq | done].
Qed.

Lemma sweepUser_other h db streams e u :
  u ≠ e.1 → sweepUser h db streams e !! u = streams !! u.
Proof.
  intros Hne. unfold sweepUser. generalize (map_to_list e.2). intros l.
  revert streams. induction l as [| x l IH]; intros streams; [done |].
  simpl. rewrite IH. by apply sweepDevice_other.
Qed.

Lemma sweepUser_entry h db streams e :
  sweepUser h db streams e !! e.1
  = foldl (sweepEntry h db) (streams !! e.1) (map_to_list e.2).
Proof.
  unfold sweepUser. generalize (map_to_list e.2). intros l.
  revert streams. induction l as [| x l IH]; intros streams; [done |].
  simpl. rewrite IH. by rewrite sweepDevice_entry.
Qed.

(** One turn of the inner loop, on the table and on the entries still
    to visit. *)
Lemma kept_step h db (m : gmap string loc) d p (l : list (string * loc)) :
  m !! d = Some p →
  filter (λ e, e ∉ l ∨ idleBefore h db e.2 = false)
         (if idleBefore h db p then delete d m else m)
  = filter (λ e, e ∉ (d, p) :: l ∨ idleBefore h db e.2 = false) m.
Proof.
  intros Hd. apply map_eq. intros i. apply option_eq. intros x.
  rewrite !map_lookup_filter_Some. cbn [snd].
  rewrite not_elem_of_cons.
  destruct (idleBefore h db p) eqn:Hp.
  - rewrite lookup_delete_Some. split.
    + intros [[Hne Hm] Hk]. split; [done |].
      destruct Hk as [Hk | Hk]; [left | by right].
      split; [congruence | done].
    + intros [Hm Hk]. assert (i ≠ d) as Hne.
      { intros ->. assert (x = p) as -> by congruence.
        destruct Hk as [[Hk _] | Hk]; congruence. }
      split; [done |]. destruct Hk as [[_ Hk] | Hk]; auto.
  - split.
    + intros [Hm Hk]. split; [done |].
      destruct (decide ((i, x) = (d, p))) as [Heq | Hne].
      * right. congruence.
      * destruct Hk as [Hk | Hk]; auto.
    + intros [Hm Hk]. split; [done |]. destruct Hk as [[_ Hk] | Hk]; auto.
Qed.

Lemma filter_unvisited h db (m : gmap string loc) :
  filter (λ e : string * loc, e ∉ [] ∨ idleBefore h db e.2 = false) m = m.
Proof.
  apply map_eq. intros i. apply option_eq. intros x.
  rewrite map_lookup_filter_Some. split; [by intros [? _] |].
  intros Hm. split; [done |]. left. apply not_elem_of_nil.
Qed.

Lemma sweepEntry_fold h db (l : list (string * loc)) (m : gmap string loc) :
  NoDup l.*1 → (∀ d p, (d, p) ∈ l → m !! d = Some p) →
  foldl (sweepEntry h db) (Some m) l
  = match l with
    | [] => Some m
    | _ => normalize
             (filter (λ e, e ∉ l ∨ idleBefore h db e.2 = false) m)
    end.
Proof.
  revert m. induction l as [| [d p] l IH]; intros m Hnd Hin; [done |].
  apply NoDup_cons in Hnd as [Hd Hnd]. cbn [fmap list_fmap fst] in Hd.
  assert (m !! d = Some p) as Hmd by (apply Hin; left).
  rewrite <- (kept_step h db m d p l Hmd). cbn [foldl].
  unfold sweepEntry at 2. cbn [fst snd].
  set (m1 := if idleBefore h db p then delete d m else m).
  assert ((if idleBefore h db p then delete d <$> Some m else Some m)
          = Some m1) as -> by (unfold m1; by destruct (idleBefore h db p)).
  change (default ∅ (Some m1)) with m1.
  assert (∀ d' p', (d', p') ∈ l → m1 !! d' = Some p') as Hin1.
  { intros d' p' Hl. assert (d' ≠ d) as Hne.
    { intros ->. apply Hd. apply list_elem_of_fmap. by exists (d, p'). }
    unfold m1. destruct (idleBefore h db p).
    - rewrite lookup_delete_ne by done. apply Hin. by right.
    - apply Hin. by right. }
  destruct l as [| e l'].
  - cbn [foldl]. rewrite filter_unvisited. unfold normalize.
    case_decide as Hs.
    + apply map_size_empty_iff in Hs. by rewrite decide_True.
    + apply map_size_non_empty_iff in Hs. by rewrite decide_False.
  - rewrite decide_False.
    + by rewrite IH.
    + apply map_size_non_empty_iff. intros Hempty. destruct e as [d' p'].
      specialize (Hin1 d' p' ltac:(left)). rewrite Hempty in Hin1.
      by rewrite lookup_empty in Hin1.
Qed.

Lemma sweepUser_lookup h db streams u m :
  streams !! u = Some m →
  sweepUser h db streams (u, m) !! u = sweptEntry h db m.
Proof.
  intros Hu. pose proof (sweepUser_entry h db streams (u, m)) as He.
  cbn [fst snd] in He. rewrite He, Hu.
  rewrite sweepEntry_fold.
  - unfold sweptEntry. destruct (map_to_list m) as [| e l] eqn:Hl.
    + apply map_to_list_empty_iff in Hl. by rewrite decide_True.
    + rewrite decide_False.
      2:{ intros ->. by rewrite map_to_list_empty in Hl. }
      rewrite <- Hl. f_equal. unfold kept.
      apply map_eq. intros i. apply option_eq. intros x.
      rewrite !map_lookup_filter_Some. cbn [snd]. split.
      * intros [Hm [Hk | Hk]]; [| done].
        exfalso. apply Hk. by apply elem_of_map_to_list.
      * intros [Hm Hk]. auto.
  - apply NoDup_fst_map_to_list.
  - intros d p. apply elem_of_map_to_list.
Qed.

Lemma sweep_fold h db (L : list (string * gmap string loc))
    (streams : gmap string (gmap string loc)) u :
  NoDup L.*1 → (∀ v m, (v, m) ∈ L → streams !! v = Some m) →
  foldl (sweepUser h db) streams L !! u
  = if decide (u ∈ L.*1) then streams !! u ≫= sweptEntry h db
    else streams !! u.
Proof.
  revert streams. induction L as [| [v m] L IH]; intros streams Hnd Hin.
  - cbn [foldl]. rewrite decide_False; [done | apply not_elem_of_nil].
  - apply NoDup_cons in Hnd as [Hv Hnd]. cbn [fmap list_fmap fst] in Hv.
    assert (streams !! v = Some m) as Hvm by (apply Hin; left).
    cbn [foldl]. rewrite IH; [| done |].
    2:{ intros w mw Hw. assert (w ≠ v) as Hne.
        { intros ->. apply Hv. apply list_elem_of_fmap. by exists (v, mw). }
        rewrite (sweepUser_other h db streams (v, m) w) by done.
        apply Hin. by right. }
    cbn [fmap list_fmap fst]. destruct (decide (u = v)) as [-> | Hne].
    + rewrite (decide_False (P := v ∈ L.*1)) by done.
      rewrite (decide_True (P := v ∈ v :: L.*1)) by left.
      rewrite sweepUser_lookup by done. by rewrite Hvm.
    + rewrite (sweepUser_other h db streams (v, m) u) by done.
      destruct (decide (u ∈ L.*1)) as [Hu | Hu].
      * rewrite decide_True; [done | by right].
      * rewrite decide_False; [done |].
        intros [? | ?]%elem_of_cons; done.
Qed.

(** The registry after the sweep, user by user. *)
Lemma sweep_lookup h db (streams : gmap string (gmap string loc)) u :
  sweep h db streams !! u = streams !! u ≫= sweptEntry h db.
Proof.
  unfold sweep. rewrite sweep_fold.
  - case_decide as Hu; [done |].
    destruct (streams !! u) as [m |] eqn:Hm; [| done].
    exfalso. apply Hu. apply list_elem_of_fmap. exists (u, m).
    split; [done |]. by apply elem_of_map_to_list.
  - apply NoDup_fst_map_to_list.
  - intros v m. apply elem_of_map_to_list.
Qed.

(** The registry after the sweep, stream by stream. *)
Lemma sweep_stream h db (streams : gmap string (gmap string loc)) u d p :
  (sweep h db streams !! u ≫= λ byUser, byUser !! d) = Some p
  ↔ (streams !! u ≫= λ byUser, byUser !! d) = Some p
    ∧ idleBefore h db p = false.
Proof.
  rewrite sweep_lookup. destruct (streams !! u) as [m |]; cbn [mbind option_bind].
  2:{ split; [done | by intros [? _]]. }
  unfold sweptEntry. case_decide as Hm.
  - subst m. cbn [mbind option_bind]. rewrite lookup_empty.
    split; [done | by intros [? _]].
  - unfold normalize. case_decide as Hk; cbn [mbind option_bind].
    + split; [done |]. intros [Hd Hp]. exfalso.
      assert (kept h db m !! d = Some p) as Hkd.
      { unfold kept. by apply map_lookup_filter_Some. }
      rewrite Hk in Hkd. by rewrite lookup_empty in Hkd.
    + unfold kept. by rewrite map_lookup_filter_Some.
Qed.

(** ** What each step leaves alone *)

Lemma removeEmptyUserStreams_frame now n :
  roomIDToJoinedUsers (removeEmptyUserStreams now n) = roomIDToJoinedUsers n
  ∧ currPos (removeEmptyUserStreams now n) = currPos n
  ∧ heap (removeEmptyUserStreams now n) = heap n.
Proof. unfold removeEmptyUserStreams. by case_bool_decide. Qed.

Lemma removeEmptyUserStreams_streamAt now n u d p :
  streamAt (removeEmptyUserStreams now n) u d = Some p →
  streamAt n u d = Some p.
Proof.
  unfold removeEmptyUserStreams. case_bool_decide; [done |].
  unfold streamAt. cbn [userDeviceStreams setStreams].
  rewrite sweep_stream. by intros [? _].
Qed.

Lemma removeEmptyUserStreams_dom now n :
  dom (userDeviceStreams (removeEmptyUserStreams now n))
  ⊆ dom (userDeviceStreams n).
Proof.
  unfold removeEmptyUserStreams. case_bool_decide; [done |].
  cbn [userDeviceStreams setStreams]. intros u.
  rewrite !elem_of_dom, sweep_lookup.
  destruct (userDeviceStreams n !! u); [eauto | by intros [? ?]].
Qed.

Lemma joinedUsers_frame n n' roomID :
  roomIDToJoinedUsers n' = roomIDToJoinedUsers n →
  joinedUsers n' roomID = joinedUsers n roomID.
Proof. unfold joinedUsers. by intros ->. Qed.

Lemma streamsOf_frame n n' us :
  userDeviceStreams n' = userDeviceStreams n →
  streamsOf n' us = streamsOf n us.
Proof.
  intros Heq. unfold streamsOf. induction us as [| u us IH]; [done |].
  cbn [mbind list_bind]. rewrite IH. f_equal.
  unfold fetchUserStreams. by rewrite Heq.
Qed.

Lemma onlyRooms_refl n : onlyRooms n n.
Proof. done. Qed.

Lemma onlyRooms_trans n1 n2 n3 :
  onlyRooms n1 n2 → onlyRooms n2 n3 → onlyRooms n1 n3.
Proof.
  intros (? & ? & ? & ?) (? & ? & ? & ?). repeat split; congruence.
Qed.

Lemma onlyRooms_foldl {A} (f : Notifier → A → Notifier) l n :
  (∀ n x, onlyRooms n (f n x)) → onlyRooms n (foldl f n l).
Proof.
  intros Hf. revert n. induction l as [| x l IH]; intros n; [done |].
  cbn [foldl]. eapply onlyRooms_trans; [apply Hf | apply IH].
Qed.

Lemma onlyRooms_setRooms r n : onlyRooms n (setRooms r n).
Proof. done. Qed.

(** [routeEvent] edits the membership index and nothing else, and it
    only ever logs an error. *)
Lemma routeEvent_frame ev n :
  onlyRooms n (routeEvent ev n).2.1
  ∧ ((routeEvent ev n).2.2 = [] ∨
     (routeEvent ev n).2.2 = [LogError unmarshalError]).
Proof.
  unfold routeEvent. case_decide; [| by split; [| left]].
  destruct (StateKey ev); [| by split; [| left]].
  destruct (Membership ev); [| by split; [| right]].
  repeat case_decide; by split; [| left].
Qed.

Lemma setUsersJoinedToRooms_frame m n :
  onlyRooms n (setUsersJoinedToRooms m n).
Proof.
  unfold setUsersJoinedToRooms. apply onlyRooms_foldl.
  intros n0 [roomID userIDs].
  eapply onlyRooms_trans; [| apply onlyRooms_foldl; intros; apply onlyRooms_setRooms].
  apply onlyRooms_setRooms.
Qed.

Lemma Load_frame r n : onlyRooms n (Load r n).
Proof. destruct r; [apply setUsersJoinedToRooms_frame | done]. Qed.

(** ** The shape of each ingress call *)

Lemma advanced_frame now posUpdate n :
  roomIDToJoinedUsers (advanced now posUpdate n) = roomIDToJoinedUsers n
  ∧ currPos (advanced now posUpdate n) = WithUpdates (currPos n) posUpdate
  ∧ heap (advanced now posUpdate n) = heap n.
Proof.
  apply (removeEmptyUserStreams_frame now
           (setCurrPos (WithUpdates (currPos n) posUpdate) n)).
Qed.

Lemma advanced_streamAt now posUpdate n u d p :
  streamAt (advanced now posUpdate n) u d = Some p → streamAt n u d = Some p.
Proof.
  apply (removeEmptyUserStreams_streamAt now
           (setCurrPos (WithUpdates (currPos n) posUpdate) n)).
Qed.

Lemma OnNewEvent_event now ev roomID userIDs posUpdate n :
  let latest := WithUpdates (currPos n) posUpdate in
  let pre := advanced now posUpdate n in
  let us := usersToNotify now ev posUpdate n in
  OnNewEvent now (Some ev) roomID userIDs posUpdate n
  = (setHeap (broadcastHeap now latest (streamsOf pre us) (heap n))
       (routeEvent ev pre).2.1,
     (routeEvent ev pre).2.2
     ++ ((λ p, Woke p latest latest) <$> streamsOf pre us)).
Proof.
  intros latest pre us. unfold OnNewEvent. fold latest.
  change (removeEmptyUserStreams now (setCurrPos latest n)) with pre.
  unfold andThen. rewrite wakeupUsers_run. cbn [fst snd].
  destruct (routeEvent_frame ev pre) as [(Hc & Hs & _ & Hh) _].
  destruct (advanced_frame now posUpdate n) as (_ & Hc' & Hh').
  fold pre in Hc', Hh'. subst us. unfold usersToNotify. fold pre.
  rewrite (streamsOf_frame pre _ _ Hs), Hh, Hh', Hc, Hc'. reflexivity.
Qed.

Lemma OnNewEvent_users now roomID userIDs posUpdate n :
  let latest := WithUpdates (currPos n) posUpdate in
  let pre := advanced now posUpdate n in
  roomID ≠ "" ∨ userIDs ≠ [] →
  let us := if decide (roomID ≠ "") then joinedUsers n roomID
            else userIDs in
  OnNewEvent now None roomID userIDs posUpdate n
  = (setHeap (broadcastHeap now latest (streamsOf pre us) (heap n)) pre,
     (λ p, Woke p latest latest) <$> streamsOf pre us).
Proof.
  intros latest pre Hsome us. unfold OnNewEvent. fold latest.
  change (removeEmptyUserStreams now (setCurrPos latest n)) with pre.
  destruct (advanced_frame now posUpdate n) as (Hr & Hc & Hh).
  fold pre in Hr, Hc, Hh. unfold us.
  destruct (decide (roomID ≠ "")) as [Hroom | Hroom].
  - rewrite wakeupUsers_run, Hc, Hh.
    by rewrite (joinedUsers_frame n pre roomID Hr).
  - rewrite decide_True.
    + by rewrite wakeupUsers_run, Hc, Hh.
    + destruct Hsome as [? | Hu]; [done |].
      destruct userIDs; [done | cbn; lia].
Qed.

Lemma OnNewEvent_nobody now posUpdate n :
  OnNewEvent now None "" [] posUpdate n
  = (advanced now posUpdate n, [LogWarn noRecipientWarning]).
Proof. reflexivity. Qed.

Lemma OnNewSendToDevice_run now userID deviceIDs posUpdate n :
  let latest := WithUpdates (currPos n) posUpdate in
  OnNewSendToDevice now userID deviceIDs posUpdate n
  = (setHeap (broadcastHeap now latest (devicesOf n userID deviceIDs)
                (heap n)) (setCurrPos latest n),
     (λ p, Woke p latest latest) <$> devicesOf n userID deviceIDs).
Proof.
  intros latest. unfold OnNewSendToDevice. fold latest.
  by rewrite wakeupUserDevice_run.
Qed.

Lemma OnNewKeyChange_run now posUpdate wakeUserID keyChangeUserID n :
  let latest := WithUpdates (currPos n) posUpdate in
  OnNewKeyChange now posUpdate wakeUserID keyChangeUserID n
  = (setHeap (broadcastHeap now latest (streamsOf n [wakeUserID]) (heap n))
       (setCurrPos latest n),
     (λ p, Woke p latest latest) <$> streamsOf n [wakeUserID]).
Proof.
  intros latest. unfold OnNewKeyChange. fold latest.
  by rewrite wakeupUsers_run.
Qed.

Lemma carries_Woke t ps : carries t ((λ p, Woke p t t) <$> ps).
Proof.
  intros p newPos committed Hin.
  apply list_elem_of_fmap in Hin as (q & Heq & _). by inversion Heq.
Qed.

Lemma carries_app t tr1 tr2 :
  carries t tr1 → carries t tr2 → carries t (tr1 ++ tr2).
Proof.
  intros H1 H2 p newPos committed [Hin | Hin]%elem_of_app; eauto.
Qed.

Lemma carries_routed t ev n : carries t (routeEvent ev n).2.2.
Proof.
  intros p newPos committed Hin.
  destruct (routeEvent_frame ev n) as [_ [Hl | Hl]]; rewrite Hl in Hin.
  - by apply elem_of_nil in Hin.
  - apply list_elem_of_singleton in Hin. discriminate.
Qed.

(** The current token and the trace of any ingress call. *)
Lemma ingress_token now i n :
  let latest := WithUpdates (currPos n) (posUpdateOf i) in
  currPos (ingress now i n).1 = latest ∧ carries latest (ingress now i n).2.
Proof.
  destruct i as [ev roomID userIDs posUpdate | userID deviceIDs posUpdate
                 | posUpdate wakeUserID keyChangeUserID];
    cbv zeta; cbn [ingress posUpdateOf].
  - destruct ev as [ev |].
    + rewrite OnNewEvent_event. cbn [fst snd]. split.
      * destruct (routeEvent_frame ev (advanced now posUpdate n))
          as [(Hc & _) _].
        cbn [currPos setHeap]. rewrite Hc. apply advanced_frame.
      * apply carries_app; [apply carries_routed | apply carries_Woke].
    + destruct (decide (roomID ≠ "" ∨ userIDs ≠ [])) as [Hsome | Hnone].
      * rewrite OnNewEvent_users by done. cbn [fst snd]. split.
        -- apply advanced_frame.
        -- apply carries_Woke.
      * assert (roomID = "") as ->.
        { destruct (decide (roomID = "")); [done |]. exfalso. auto. }
        assert (userIDs = []) as ->.
        { destruct userIDs; [done |]. exfalso. auto. }
        rewrite OnNewEvent_nobody. cbn [fst snd]. split.
        -- apply advanced_frame.
        -- intros p newPos committed Hin.
           apply list_elem_of_singleton in Hin. discriminate.
  - rewrite OnNewSendToDevice_run. cbn [fst snd]. split; [done |].
    apply carries_Woke.
  - rewrite OnNewKeyChange_run. cbn [fst snd]. split; [done |].
    apply carries_Woke.
Qed.

Lemma GetListener_currPos now req n :
  currPos (GetListener now req n).2 = currPos n.
Proof.
  unfold GetListener.
  destruct (removeEmptyUserStreams_frame now n) as (_ & Hc & _).
  revert Hc. generalize (removeEmptyUserStreams now n). intros n1 Hc.
  unfold fetchUserDeviceStream, fetchDevice.
  destruct (userDeviceStreams n1 !! deviceUserID req) as [m |].
  - by destruct (m !! deviceDeviceID req).
  - by rewrite lookup_empty.
Qed.

Lemma call_token c n : token_le (currPos n) (currPos (call c n)).
Proof.
  destruct c as [now [i | req | r]]; unfold call; cbn [fst snd].
  - destruct (ingress_token now i n) as [-> _]. apply WithUpdates_le.
  - rewrite GetListener_currPos. apply token_le_refl.
  - destruct (Load_frame r n) as (-> & _). apply token_le_refl.
Qed.

(** C1.  The token read by [CurrentPosition] never goes back in any
    dimension: each ingress call ([OnNewEvent], [OnNewSendToDevice],
    [OnNewKeyChange], whatever its [posUpdate]) leaves every dimension
    at least where it was, and so does every sequence of calls. *)
Theorem CurrentPosition_monotone :
  (∀ now i n d,
     (position d (CurrentPosition n)
      ≤ position d (CurrentPosition (ingress now i n).1))%N)
  ∧ (∀ cs n d,
       (position d (CurrentPosition n)
        ≤ position d (CurrentPosition (calls cs n)))%N).
Proof.
  split.
  - intros now i n d. apply (call_token (now, Produce i) n).
  - intros cs. induction cs as [| c cs IH]; intros n d; [cbn; lia |].
    cbn [calls foldl]. etrans; [apply (call_token c n) | apply IH].
Qed.

(** C2.  An ingress call first sets the current token to the merge of
    the old one with [posUpdate]; every broadcast it then issues carries
    that merged token, and the notifier already held it when the
    broadcast was issued. *)
Theorem token_advanced_before_wake now i n :
  let latest := WithUpdates (currPos n) (posUpdateOf i) in
  CurrentPosition (ingress now i n).1 = latest
  ∧ ∀ p newPos committed,
      Woke p newPos committed ∈ (ingress now i n).2 →
      newPos = latest ∧ committed = latest.
Proof. apply ingress_token. Qed.

(** ** Routing of [OnNewEvent] *)

Lemma streamAt_frame n n' u d :
  userDeviceStreams n' = userDeviceStreams n → streamAt n' u d = streamAt n u d.
Proof. unfold streamAt. by intros ->. Qed.

Lemma woken_routed ev n : woken (routeEvent ev n).2.2 = [].
Proof. destruct (routeEvent_frame ev n) as [_ [-> | ->]]; done. Qed.

Lemma not_warned_routed ev n :
  LogWarn noRecipientWarning ∉ (routeEvent ev n).2.2.
Proof.
  destruct (routeEvent_frame ev n) as [_ [-> | ->]].
  - apply not_elem_of_nil.
  - intros Hin%list_elem_of_singleton. discriminate.
Qed.

Lemma not_warned_Woke t (ps : list loc) :
  LogWarn noRecipientWarning ∉ (λ p, Woke p t t) <$> ps.
Proof. intros (q & Heq & _)%list_elem_of_fmap. discriminate. Qed.

Lemma OnNewEvent_event_wakes now ev roomID userIDs posUpdate n :
  wakesUsers (OnNewEvent now (Some ev) roomID userIDs posUpdate n)
             (usersToNotify now ev posUpdate n).
Proof.
  rewrite OnNewEvent_event. intros p. cbn [fst snd].
  rewrite woken_app, woken_routed, woken_Woke, app_nil_l, elem_of_streamsOf.
  destruct (routeEvent_frame ev (advanced now posUpdate n))
    as [(_ & Hs & _) _].
  split; intros (u & d & Hu & Hd); exists u, d; split; try done.
  - by rewrite (streamAt_frame (advanced now posUpdate n)).
  - by rewrite (streamAt_frame (advanced now posUpdate n)) in Hd.
Qed.

Lemma OnNewEvent_users_wakes now roomID userIDs posUpdate n :
  roomID ≠ "" ∨ userIDs ≠ [] →
  wakesUsers (OnNewEvent now None roomID userIDs posUpdate n)
             (if decide (roomID ≠ "") then joinedUsers n roomID else userIDs).
Proof.
  intros Hsome. rewrite OnNewEvent_users by done. intros p. cbn [fst snd].
  by rewrite woken_Woke, elem_of_streamsOf.
Qed.

(** The users [routeEvent] notifies: the joined users of the room, and
    the target of a member event after them when it is invited or
    joins. *)
Lemma routeEvent_users ev n :
  ∃ extra,
    (routeEvent ev n).1 = joinedUsers n (RoomID ev) ++ extra
    ∧ (extra = [] ∨
       ∃ target, Type_ ev = MRoomMember ∧ StateKey ev = Some target
                 ∧ extra = [target]).
Proof.
  unfold routeEvent. case_decide as Ht.
  2:{ exists []. by rewrite app_nil_r; auto. }
  destruct (StateKey ev) as [target |].
  2:{ exists []. by rewrite app_nil_r; auto. }
  destruct (Membership ev) as [membership |].
  2:{ exists []. by rewrite app_nil_r; auto. }
  repeat case_decide;
    first [ by (exists [target]; cbn [fst]; eauto 6)
          | by (exists []; cbn [fst]; rewrite app_nil_r; auto) ].
Qed.

(** C3.  [OnNewEvent] picks its recipients by the order of its
    parameters.  With an event, it wakes the users its routing notifies:
    the joined users of the event's room, followed at most by the target
    of a member event; [roomID] and [userIDs] play no part.  Without an
    event and with a room, it wakes the joined users of the room; without
    either and with users, it wakes exactly these; with nothing, it logs
    the warning and broadcasts to no stream. *)
Theorem OnNewEvent_priority now ev roomID userIDs posUpdate n :
  let r := OnNewEvent now ev roomID userIDs posUpdate n in
  match ev with
  | Some e =>
      (∃ extra,
         usersToNotify now e posUpdate n = joinedUsers n (RoomID e) ++ extra
         ∧ (extra = [] ∨
            ∃ target, Type_ e = MRoomMember ∧ StateKey e = Some target
                      ∧ extra = [target]))
      ∧ wakesUsers r (usersToNotify now e posUpdate n)
      ∧ LogWarn noRecipientWarning ∉ r.2
  | None =>
      if decide (roomID ≠ "") then
        wakesUsers r (joinedUsers n roomID)
        ∧ LogWarn noRecipientWarning ∉ r.2
      else if decide (userIDs ≠ []) then
        wakesUsers r userIDs ∧ LogWarn noRecipientWarning ∉ r.2
      else r.2 = [LogWarn noRecipientWarning] ∧ woken r.2 = []
  end.
Proof.
  intros r. destruct ev as [e |].
  - split; [| split].
    + unfold usersToNotify.
      destruct (routeEvent_users e (advanced now posUpdate n))
        as (extra & Heq & Hextra).
      exists extra. split; [| done]. rewrite Heq. f_equal.
      apply joinedUsers_frame, advanced_frame.
    + apply OnNewEvent_event_wakes.
    + unfold r. rewrite OnNewEvent_event. cbn [snd].
      intros [Hin | Hin]%elem_of_app.
      * by apply not_warned_routed in Hin.
      * by apply not_warned_Woke in Hin.
  - destruct (decide (roomID ≠ "")) as [Hroom | Hroom].
    + pose proof (OnNewEvent_users_wakes now roomID userIDs posUpdate n
                    (or_introl Hroom)) as Hw.
      rewrite decide_True in Hw by done. split; [done |].
      unfold r. rewrite OnNewEvent_users by auto. apply not_warned_Woke.
    + destruct (decide (userIDs ≠ [])) as [Hu | Hu].
      * pose proof (OnNewEvent_users_wakes now roomID userIDs posUpdate n
                      (or_intror Hu)) as Hw.
        rewrite decide_False in Hw by done. split; [done |].
        unfold r. rewrite OnNewEvent_users by auto. apply not_warned_Woke.
      * assert (roomID = "") as ->.
        { by destruct (decide (roomID = "")). }
        assert (userIDs = []) as ->.
        { destruct userIDs; [done |]. exfalso. by apply Hu. }
        done.
Qed.

(** ** Membership events *)

Lemma joinedUsers_addJoinedUser roomID userID n :
  userID ∈ joinedUsers (addJoinedUser roomID userID n) roomID.
Proof.
  unfold joinedUsers, addJoinedUser. cbn [roomIDToJoinedUsers setRooms].
  rewrite lookup_insert_eq. apply elem_of_elements. set_solver.
Qed.

Lemma joinedUsers_removeJoinedUser roomID userID n :
  userID ∉ joinedUsers (removeJoinedUser roomID userID n) roomID.
Proof.
  unfold joinedUsers, removeJoinedUser. cbn [roomIDToJoinedUsers setRooms].
  rewrite lookup_insert_eq, elem_of_elements, elem_of_difference.
  intros [_ Hne]. apply Hne. by apply elem_of_singleton.
Qed.

Lemma OnNewEvent_event_rooms now ev roomID userIDs posUpdate n :
  roomIDToJoinedUsers (OnNewEvent now (Some ev) roomID userIDs posUpdate n).1
  = roomIDToJoinedUsers (routeEvent ev (advanced now posUpdate n)).2.1.
Proof. by rewrite OnNewEvent_event. Qed.

(** C4.  A member event with a state key and a membership that parses:
    [OnNewEvent] wakes the users of [usersToNotify], and when it returns
    - for an invite the membership index is as it was, and the target was
      appended to the joined users of the room;
    - for a join the target is among the joined users of the room, and
      was appended likewise;
    - for a leave or a ban the target is not among the joined users of
      the room, and nothing was appended. *)
Theorem membership_transition now e roomID userIDs posUpdate n target
    membership :
  Type_ e = MRoomMember → StateKey e = Some target →
  Membership e = Some membership →
  let r := OnNewEvent now (Some e) roomID userIDs posUpdate n in
  let us := usersToNotify now e posUpdate n in
  wakesUsers r us
  ∧ (membership = Invite →
       roomIDToJoinedUsers r.1 = roomIDToJoinedUsers n
       ∧ us = joinedUsers n (RoomID e) ++ [target])
  ∧ (membership = Join →
       target ∈ joinedUsers r.1 (RoomID e)
       ∧ us = joinedUsers n (RoomID e) ++ [target])
  ∧ ((membership = Leave ∨ membership = Ban) →
       (target ∉ joinedUsers r.1 (RoomID e))
       ∧ us = joinedUsers n (RoomID e)).
Proof.
  intros Ht Hk Hm r us. split; [apply OnNewEvent_event_wakes |].
  destruct (advanced_frame now posUpdate n) as (Hr & _).
  pose proof (joinedUsers_frame n _ (RoomID e) Hr) as Hj.
  pose proof (OnNewEvent_event_rooms now e roomID userIDs posUpdate n) as Hrooms.
  fold r in Hrooms. subst us. unfold usersToNotify.
  revert Hrooms. unfold routeEvent. rewrite decide_True by done.
  rewrite Hk, Hm, Hj. intros Hrooms.
  split; [| split].
  - intros ->. rewrite decide_True in * by done.
    cbn [fst snd] in *. split; [congruence | done].
  - intros ->. rewrite decide_False in * by done.
    rewrite decide_True in * by done. cbn [fst snd] in *. split; [| done].
    rewrite (joinedUsers_frame _ _ _ Hrooms).
    apply joinedUsers_addJoinedUser.
  - intros [-> | ->].
    + rewrite !(decide_False (P := Leave = Invite)) in * by done.
      rewrite !(decide_False (P := Leave = Join)) in * by done.
      rewrite decide_True in * by done. cbn [fst snd] in *. split; [| done].
      rewrite (joinedUsers_frame _ _ _ Hrooms).
      apply joinedUsers_removeJoinedUser.
    + rewrite !(decide_False (P := Ban = Invite)) in * by done.
      rewrite !(decide_False (P := Ban = Join)) in * by done.
      rewrite !(decide_False (P := Ban = Leave)) in * by done.
      rewrite decide_True in * by done. cbn [fst snd] in *. split; [| done].
      rewrite (joinedUsers_frame _ _ _ Hrooms).
      apply joinedUsers_removeJoinedUser.
Qed.

Lemma OnNewEvent_event_streams now ev roomID userIDs posUpdate n :
  userDeviceStreams (OnNewEvent now (Some ev) roomID userIDs posUpdate n).1
  = userDeviceStreams (advanced now posUpdate n).
Proof.
  rewrite OnNewEvent_event. cbn [fst userDeviceStreams setHeap].
  apply routeEvent_frame.
Qed.

(** C5 (as amended).  [OnNewEvent] with no event, no room and no users
    logs the warning and nothing else, broadcasts to no stream, and leaves
    the membership index and every stream cell as they were.  The state
    it returns is the one in which the token has been advanced by
    [posUpdate] and the sweep has run: the current token is the merge,
    and when no sweep is due the registry and the time of the last sweep
    are unchanged as well. *)
Theorem no_recipient_misuse now posUpdate n :
  let r := OnNewEvent now None "" [] posUpdate n in
  r.2 = [LogWarn noRecipientWarning]
  ∧ woken r.2 = []
  ∧ roomIDToJoinedUsers r.1 = roomIDToJoinedUsers n
  ∧ heap r.1 = heap n
  ∧ CurrentPosition r.1 = WithUpdates (currPos n) posUpdate
  ∧ r.1 = removeEmptyUserStreams now
            (setCurrPos (WithUpdates (currPos n) posUpdate) n)
  ∧ (now < lastCleanUpTime n + Minute →
       userDeviceStreams r.1 = userDeviceStreams n
       ∧ lastCleanUpTime r.1 = lastCleanUpTime n).
Proof.
  intros r. unfold r. rewrite OnNewEvent_nobody. cbn [fst snd].
  destruct (advanced_frame now posUpdate n) as (Hr & Hc & Hh).
  repeat split; try done.
  - unfold advanced, removeEmptyUserStreams. cbn [lastCleanUpTime setCurrPos].
    by rewrite bool_decide_true.
  - unfold advanced, removeEmptyUserStreams. cbn [lastCleanUpTime setCurrPos].
    by rewrite bool_decide_true.
Qed.

(** C6.  A member event whose membership fails to parse: the membership
    index is left as it was, the users notified are the joined users of
    the room as they were, and every stream that the registry holds for
    one of them is sent the new current token; the failure is logged when
    the event has a state key. *)
Theorem unparseable_membership now e roomID userIDs posUpdate n :
  Type_ e = MRoomMember → Membership e = None →
  let latest := WithUpdates (currPos n) posUpdate in
  let r := OnNewEvent now (Some e) roomID userIDs posUpdate n in
  roomIDToJoinedUsers r.1 = roomIDToJoinedUsers n
  ∧ usersToNotify now e posUpdate n = joinedUsers n (RoomID e)
  ∧ (∀ u d p, u ∈ joinedUsers n (RoomID e) → streamAt r.1 u d = Some p →
       Woke p latest latest ∈ r.2)
  ∧ (is_Some (StateKey e) → LogError unmarshalError ∈ r.2)
  ∧ CurrentPosition r.1 = latest.
Proof.
  intros Ht Hm latest r.
  destruct (advanced_frame now posUpdate n) as (Hr & Hc & _).
  pose proof (joinedUsers_frame n _ (RoomID e) Hr) as Hj.
  assert (usersToNotify now e posUpdate n = joinedUsers n (RoomID e)
          ∧ (routeEvent e (advanced now posUpdate n)).2.1
            = advanced now posUpdate n
          ∧ (is_Some (StateKey e) →
             (routeEvent e (advanced now posUpdate n)).2.2
             = [LogError unmarshalError])) as (Hus & Hst & Hlog).
  { unfold usersToNotify, routeEvent. rewrite decide_True by done.
    rewrite Hm, Hj. destruct (StateKey e); cbn [fst snd].
    - done.
    - split; [done |]. split; [done |]. by intros [? ?]. }
  pose proof (OnNewEvent_event_streams now e roomID userIDs posUpdate n) as Hs.
  fold r in Hs. unfold r. rewrite OnNewEvent_event. cbn [fst snd].
  rewrite Hst, Hus. cbn [roomIDToJoinedUsers setHeap].
  split; [done |]. split; [done |]. split; [| split].
  - intros u d p Hu Hd. apply elem_of_app. right.
    apply list_elem_of_fmap. exists p. split; [done |].
    apply elem_of_streamsOf. exists u, d. split; [done |]. exact Hd.
  - intros Hk. rewrite (Hlog Hk). apply elem_of_app. left. left.
  - done.
Qed.

(** ** Send-to-device *)

(** C7.  [OnNewSendToDevice] broadcasts the new current token to the
    streams registered for the listed devices of the user and to no other
    stream; every other stream cell is as it was, and so are the registry,
    the membership index and the time of the last sweep.  The current
    token afterwards is the merge with [posUpdate]. *)
Theorem send_to_device_narrow now userID deviceIDs posUpdate n :
  let latest := WithUpdates (currPos n) posUpdate in
  let r := OnNewSendToDevice now userID deviceIDs posUpdate n in
  CurrentPosition r.1 = latest
  ∧ (∀ p, p ∈ woken r.2 ↔
          ∃ d, d ∈ deviceIDs ∧ streamAt n userID d = Some p)
  ∧ (∀ e, e ∈ r.2 → ∃ p, e = Woke p latest latest)
  ∧ (∀ p, p ∉ woken r.2 → heap r.1 !! p = heap n !! p)
  ∧ dom (heap r.1) = dom (heap n)
  ∧ userDeviceStreams r.1 = userDeviceStreams n
  ∧ roomIDToJoinedUsers r.1 = roomIDToJoinedUsers n
  ∧ lastCleanUpTime r.1 = lastCleanUpTime n.
Proof.
  intros latest r. unfold r. rewrite OnNewSendToDevice_run.
  cbn [fst snd]. fold latest. rewrite woken_Woke.
  repeat split; try done.
  - by intros ?%elem_of_devicesOf.
  - by intros ?%elem_of_devicesOf.
  - intros e (p & -> & _)%list_elem_of_fmap. by exists p.
  - intros p Hp. cbn [heap setHeap]. by apply broadcastHeap_other.
  - cbn [heap setHeap setCurrPos]. apply broadcastHeap_dom.
Qed.

(** ** The sweep of idle streams *)

(** C8.  [removeEmptyUserStreams] does nothing when called less than a
    minute after the last sweep.  Otherwise it records the time of the
    sweep, so that no call within the next minute sweeps again, and
    removes from the registry exactly the streams whose
    [TimeOfLastNonEmpty] is before [now] minus five minutes: a stream is
    registered afterwards when it was registered before and is not that
    old.  The entry of a user is removed when the sweep empties its
    device table, and only then.  Nothing but the registry and the time
    of the last sweep changes. *)
Theorem sweep_policy now n :
  let n' := removeEmptyUserStreams now n in
  (now < lastCleanUpTime n + Minute → n' = n)
  ∧ (lastCleanUpTime n + Minute ≤ now →
       lastCleanUpTime n' = now
       ∧ (∀ now', now' < now + Minute →
            removeEmptyUserStreams now' n' = n')
       ∧ (∀ u d p, streamAt n' u d = Some p → streamAt n u d = Some p)
       ∧ (∀ u d p s, streamAt n u d = Some p → heap n !! p = Some s →
            (streamAt n' u d = Some p
             ↔ ¬ TimeOfLastNonEmpty s < now - 5 * Minute))
       ∧ (∀ u m, userDeviceStreams n !! u = Some m → m ≠ ∅ →
            (userDeviceStreams n' !! u = None
             ↔ ∀ d p, m !! d = Some p → streamAt n' u d = None))
       ∧ (∀ u, userDeviceStreams n !! u = None →
            userDeviceStreams n' !! u = None))
  ∧ roomIDToJoinedUsers n' = roomIDToJoinedUsers n
  ∧ currPos n' = currPos n
  ∧ heap n' = heap n.
Proof.
  intros n'. split; [| split].
  - intros Hlt. unfold n', removeEmptyUserStreams.
    by rewrite bool_decide_true.
  - intros Hge. unfold n', removeEmptyUserStreams.
    rewrite bool_decide_false by lia.
    set (db := now + -5 * Minute).
    cbn [lastCleanUpTime setStreams setLastCleanUp]. split; [done |].
    split; [| split; [| split; [| split]]].
    + intros now' Hlt. by rewrite bool_decide_true.
    + intros u d p. unfold streamAt. cbn [userDeviceStreams setStreams].
      rewrite sweep_stream. by intros [? _].
    + intros u d p s Hd Hs. unfold streamAt in *.
      cbn [userDeviceStreams setStreams]. rewrite sweep_stream.
      unfold idleBefore. rewrite Hs. split.
      * intros [_ Hk]. apply bool_decide_eq_false in Hk.
        unfold db in Hk. lia.
      * intros Hk. split; [done |]. apply bool_decide_eq_false.
        unfold db. lia.
    + intros u m Hu Hm. unfold streamAt.
      cbn [userDeviceStreams setStreams]. rewrite sweep_lookup, Hu.
      cbn [mbind option_bind]. unfold sweptEntry.
      rewrite decide_False by done. unfold normalize.
      case_decide as Hk.
      * split; [done |]. done.
      * split; [done |]. intros Hall. exfalso.
        apply map_choose in Hk as (d & p & Hd). specialize (Hall d p).
        cbn [mbind option_bind] in Hall. rewrite Hd in Hall.
        unfold kept in Hd. apply map_lookup_filter_Some in Hd as [Hd _].
        by specialize (Hall Hd).
    + intros u Hu. cbn [userDeviceStreams setStreams].
      by rewrite sweep_lookup, Hu.
  - apply removeEmptyUserStreams_frame.
Qed.

(** ** Listeners and the registry *)

Lemma fetchUserDeviceStream_make now u d n :
  fetchUserDeviceStream now u d true n
  = match streamAt n u d with
    | Some p => (Some p, n)
    | None =>
        let p := fresh (dom (heap n)) in
        (Some p,
         setStreams (<[u := <[d := p]> (deviceTable (userDeviceStreams n) u)]>
                       (userDeviceStreams n))
           (setHeap (<[p := NewUserDeviceStream now u d (currPos n)]>
                       (heap n)) n))
    end.
Proof.
  unfold fetchUserDeviceStream, fetchDevice, streamAt, deviceTable.
  destruct (userDeviceStreams n !! u) as [m |] eqn:Hu;
    cbn [mbind option_bind default from_option id].
  - destruct (m !! d); [by destruct n | done].
  - rewrite lookup_empty. cbn [userDeviceStreams setStreams heap currPos].
    by rewrite insert_insert_eq.
Qed.

Lemma streamAt_insert n u d p u' d' :
  streamAt
    (setStreams (<[u := <[d := p]> (deviceTable (userDeviceStreams n) u)]>
                   (userDeviceStreams n)) n) u' d'
  = if decide (u = u' ∧ d = d') then Some p else streamAt n u' d'.
Proof.
  unfold streamAt, deviceTable. cbn [userDeviceStreams setStreams].
  destruct (decide (u = u')) as [<- | Hu].
  - rewrite lookup_insert_eq. cbn [mbind option_bind].
    destruct (decide (d = d')) as [<- | Hd].
    + rewrite lookup_insert_eq. by rewrite decide_True.
    + rewrite lookup_insert_ne by done.
      rewrite decide_False by (by intros [_ ?]).
      by destruct (userDeviceStreams n !! u).
  - rewrite lookup_insert_ne by done.
    by rewrite decide_False by (by intros [? _]).
Qed.

(** [GetListener], by whether the sweep left a stream for the device. *)
Lemma GetListener_run now req n :
  let pre := removeEmptyUserStreams now n in
  let u := deviceUserID req in
  let d := deviceDeviceID req in
  GetListener now req n
  = match streamAt pre u d with
    | Some p =>
        (Some (streamListener now p pre).1, (streamListener now p pre).2)
    | None =>
        let p := fresh (dom (heap n)) in
        let made :=
          setStreams
            (<[u := <[d := p]> (deviceTable (userDeviceStreams pre) u)]>
               (userDeviceStreams pre))
            (setHeap (<[p := NewUserDeviceStream now u d (currPos n)]>
                        (heap n)) pre) in
        (Some (streamListener now p made).1, (streamListener now p made).2)
    end.
Proof.
  intros pre u d. unfold GetListener. fold pre u d.
  rewrite fetchUserDeviceStream_make.
  destruct (removeEmptyUserStreams_frame now n) as (_ & Hc & Hh).
  fold pre in Hc, Hh.
  destruct (streamAt pre u d); [done |]. cbv zeta. by rewrite Hh, Hc.
Qed.

Lemma GetListener_stream now req n :
  ∃ l, (GetListener now req n).1 = Some l
    ∧ streamAt (GetListener now req n).2 (deviceUserID req)
               (deviceDeviceID req) = Some (userStream l)
    ∧ match streamAt (removeEmptyUserStreams now n) (deviceUserID req)
              (deviceDeviceID req) with
      | Some p =>
          userStream l = p
          ∧ dom (heap (GetListener now req n).2) = dom (heap n)
          ∧ userDeviceStreams (GetListener now req n).2
            = userDeviceStreams (removeEmptyUserStreams now n)
      | None =>
          (userStream l ∉ dom (heap n))
          ∧ dom (heap (GetListener now req n).2)
            = {[userStream l]} ∪ dom (heap n)
      end.
Proof.
  rewrite GetListener_run. cbv zeta.
  destruct (removeEmptyUserStreams_frame now n) as (_ & _ & Hh).
  destruct (streamAt (removeEmptyUserStreams now n) (deviceUserID req)
              (deviceDeviceID req)) as [p |] eqn:Hp.
  - eexists. split; [done |]. cbn [fst snd streamListener userStream].
    split; [| split; [| split]]; try done.
    cbn [heap setHeap]. by rewrite dom_alter_L, Hh.
  - eexists. split; [done |]. cbn [fst snd streamListener userStream].
    split; [| split].
    + etrans; [apply (streamAt_insert (removeEmptyUserStreams now n)) |].
      by rewrite decide_True.
    + apply is_fresh.
    + cbn [heap setHeap setStreams]. by rewrite dom_alter_L, dom_insert_L.
Qed.

Lemma GetListener_other now req n u d :
  ¬ (deviceUserID req = u ∧ deviceDeviceID req = d) →
  streamAt (GetListener now req n).2 u d
  = streamAt (removeEmptyUserStreams now n) u d.
Proof.
  intros Hne. rewrite GetListener_run. cbv zeta.
  destruct (streamAt (removeEmptyUserStreams now n) (deviceUserID req)
              (deviceDeviceID req)) as [p |]; [done |].
  cbn [snd streamListener].
  etrans; [apply (streamAt_insert (removeEmptyUserStreams now n)) |].
  by rewrite decide_False.
Qed.

(** An ingress call leaves a registry that the one before it includes. *)
Lemma ingress_registry now i n :
  (∀ u d p, streamAt (ingress now i n).1 u d = Some p →
            streamAt n u d = Some p)
  ∧ dom (userDeviceStreams (ingress now i n).1) ⊆ dom (userDeviceStreams n)
  ∧ dom (heap (ingress now i n).1) = dom (heap n).
Proof.
  destruct i as [ev roomID userIDs posUpdate | userID deviceIDs posUpdate
                 | posUpdate wakeUserID keyChangeUserID]; cbn [ingress].
  - assert (userDeviceStreams
              (OnNewEvent now ev roomID userIDs posUpdate n).1
            = userDeviceStreams (advanced now posUpdate n)
            ∧ dom (heap (OnNewEvent now ev roomID userIDs posUpdate n).1)
              = dom (heap n)) as [Hs Hh].
    { destruct ev as [ev |].
      - split; [apply OnNewEvent_event_streams |].
        rewrite OnNewEvent_event. apply broadcastHeap_dom.
      - destruct (decide (roomID ≠ "" ∨ userIDs ≠ [])) as [Hsome | Hnone].
        + rewrite OnNewEvent_users by done. split; [done |].
          apply broadcastHeap_dom.
        + assert (roomID = "") as ->.
          { destruct (decide (roomID = "")); [done |]. exfalso. auto. }
          assert (userIDs = []) as ->.
          { destruct userIDs; [done |]. exfalso. auto. }
          rewrite OnNewEvent_nobody. split; [done |].
          cbn [fst]. by destruct (advanced_frame now posUpdate n) as (_ & _ & ->). }
    split; [| split; [| done]].
    + intros u d p. rewrite (streamAt_frame _ _ u d Hs).
      apply advanced_streamAt.
    + rewrite Hs.
      apply (removeEmptyUserStreams_dom now
               (setCurrPos (WithUpdates (currPos n) posUpdate) n)).
  - rewrite OnNewSendToDevice_run. cbn [fst].
    split; [done |]. split; [done |]. apply broadcastHeap_dom.
  - rewrite OnNewKeyChange_run. cbn [fst].
    split; [done |]. split; [done |]. apply broadcastHeap_dom.
Qed.

(** C10.  No ingress call adds to the registry or to the store of
    streams: a stream registered after [OnNewEvent], [OnNewSendToDevice]
    or [OnNewKeyChange] was registered, for the same user and device,
    before it, no user gains an entry, and the store holds the same
    cells.  [GetListener] for a device without a stream is what makes
    one. *)
Theorem ingress_creates_no_stream :
  (∀ now i n,
     let r := ingress now i n in
     (∀ u d p, streamAt r.1 u d = Some p → streamAt n u d = Some p)
     ∧ dom (userDeviceStreams r.1) ⊆ dom (userDeviceStreams n)
     ∧ dom (heap r.1) = dom (heap n))
  ∧ (∀ now req n,
       streamAt (removeEmptyUserStreams now n) (deviceUserID req)
                (deviceDeviceID req) = None →
       ∃ p, streamAt (GetListener now req n).2 (deviceUserID req)
                     (deviceDeviceID req) = Some p
            ∧ (p ∉ dom (heap n))
            ∧ p ∈ dom (heap (GetListener now req n).2)).
Proof.
  split; [apply ingress_registry |].
  intros now req n Hnone.
  destruct (GetListener_stream now req n) as (l & _ & Hl & Hcase).
  rewrite Hnone in Hcase. destruct Hcase as [Hfresh Hdom].
  exists (userStream l). split; [done |]. split; [done |].
  rewrite Hdom. apply elem_of_union. left. by apply elem_of_singleton.
Qed.

(** ** One stream per device *)

Lemma sameIdentity_refl h : sameIdentity h h.
Proof. intros p s Hp. eauto. Qed.

Lemma sameIdentity_trans h1 h2 h3 :
  sameIdentity h1 h2 → sameIdentity h2 h3 → sameIdentity h1 h3.
Proof.
  intros H12 H23 p s Hp.
  destruct (H12 p s Hp) as (s2 & Hp2 & Hu2 & Hd2).
  destruct (H23 p s2 Hp2) as (s3 & Hp3 & Hu3 & Hd3).
  exists s3. split; [done |]. split; congruence.
Qed.

Lemma sameIdentity_alter f q h :
  (∀ s, UserID (f s) = UserID s ∧ DeviceID (f s) = DeviceID s) →
  sameIdentity h (alter f q h).
Proof.
  intros Hf p s Hp. destruct (decide (q = p)) as [-> | Hne].
  - exists (f s). rewrite lookup_alter_eq, Hp. split; [done | apply Hf].
  - exists s. by rewrite lookup_alter_ne.
Qed.

Lemma sameIdentity_insert q x h :
  h !! q = None → sameIdentity h (<[q := x]> h).
Proof.
  intros Hq p s Hp. exists s. split; [| done].
  rewrite lookup_insert_ne; [done | congruence].
Qed.

Lemma sameIdentity_broadcastHeap now newPos ps h :
  sameIdentity h (broadcastHeap now newPos ps h).
Proof.
  revert h. induction ps as [| q ps IH]; intros h.
  - apply sameIdentity_refl.
  - cbn [broadcastHeap foldl]. eapply sameIdentity_trans; [| apply IH].
    by apply sameIdentity_alter.
Qed.

Lemma ingress_heap now i n :
  sameIdentity (heap n) (heap (ingress now i n).1).
Proof.
  destruct i as [ev roomID userIDs posUpdate | userID deviceIDs posUpdate
                 | posUpdate wakeUserID keyChangeUserID]; cbn [ingress].
  - destruct ev as [ev |].
    + rewrite OnNewEvent_event. apply sameIdentity_broadcastHeap.
    + destruct (decide (roomID ≠ "" ∨ userIDs ≠ [])) as [Hsome | Hnone].
      * rewrite OnNewEvent_users by done. apply sameIdentity_broadcastHeap.
      * assert (roomID = "") as ->.
        { destruct (decide (roomID = "")); [done |]. exfalso. auto. }
        assert (userIDs = []) as ->.
        { destruct userIDs; [done |]. exfalso. auto. }
        rewrite OnNewEvent_nobody. cbn [fst].
        destruct (advanced_frame now posUpdate n) as (_ & _ & ->).
        apply sameIdentity_refl.
  - rewrite OnNewSendToDevice_run. apply sameIdentity_broadcastHeap.
  - rewrite OnNewKeyChange_run. apply sameIdentity_broadcastHeap.
Qed.

Lemma registryOK_shrink n n' :
  (∀ u d p, streamAt n' u d = Some p → streamAt n u d = Some p) →
  sameIdentity (heap n) (heap n') →
  registryOK n → registryOK n'.
Proof.
  intros Hsub Hheap Hok u d p Hp.
  destruct (Hok u d p (Hsub u d p Hp)) as (s & Hs & Hu & Hd).
  destruct (Hheap p s Hs) as (s' & Hs' & Hu' & Hd').
  exists s'. split; [done |]. split; congruence.
Qed.

Lemma registryOK_GetListener now req n :
  registryOK n → registryOK (GetListener now req n).2.
Proof.
  intros Hok.
  destruct (removeEmptyUserStreams_frame now n) as (_ & _ & Hh).
  assert (registryOK (removeEmptyUserStreams now n)) as Hpre.
  { apply (registryOK_shrink n); [| by rewrite Hh; apply sameIdentity_refl
                                   | done].
    apply removeEmptyUserStreams_streamAt. }
  rewrite GetListener_run. cbv zeta.
  destruct (streamAt (removeEmptyUserStreams now n) (deviceUserID req)
              (deviceDeviceID req)) as [p |] eqn:Hp.
  - cbn [snd streamListener].
    apply (registryOK_shrink (removeEmptyUserStreams now n)); [done | | done].
    by apply sameIdentity_alter.
  - cbn [snd streamListener]. set (q := fresh (dom (heap n))).
    assert (heap n !! q = None) as Hq.
    { apply not_elem_of_dom. apply is_fresh. }
    intros u d p Hpd.
    assert ((if decide (deviceUserID req = u ∧ deviceDeviceID req = d)
             then Some q
             else streamAt (removeEmptyUserStreams now n) u d) = Some p)
      as Hpd'.
    { rewrite <- Hpd. symmetry.
      apply (streamAt_insert (removeEmptyUserStreams now n)). }
    clear Hpd. rename Hpd' into Hpd. cbn [heap setHeap setStreams].
    case_decide as Heq.
    + destruct Heq as [<- <-]. assert (p = q) as -> by congruence.
      rewrite lookup_alter_eq, lookup_insert_eq. eexists. by split.
    + destruct (Hpre u d p Hpd) as (s & Hs & Hu & Hd). rewrite Hh in Hs.
      assert (p ≠ q) as Hne by congruence.
      exists s. rewrite lookup_alter_ne, lookup_insert_ne by done. done.
Qed.

Lemma registryOK_call c n : registryOK n → registryOK (call c n).
Proof.
  intros Hok. destruct c as [now [i | req | r]]; unfold call; cbn [fst snd].
  - apply (registryOK_shrink n); [apply ingress_registry | | done].
    apply ingress_heap.
  - by apply registryOK_GetListener.
  - destruct (Load_frame r n) as (_ & Hs & _ & Hh).
    apply (registryOK_shrink n); [| by rewrite Hh; apply sameIdentity_refl
                                   | done].
    intros u d p. by rewrite (streamAt_frame _ _ u d Hs).
Qed.

Lemma reachable_registryOK n : reachable n → registryOK n.
Proof.
  induction 1 as [now p | c n _ IH].
  - intros u d q Hq. unfold streamAt, NewNotifier in Hq.
    cbn [userDeviceStreams] in Hq. by rewrite lookup_empty in Hq.
  - by apply registryOK_call.
Qed.

Lemma removeEmptyUserStreams_setCurrPos now t n :
  userDeviceStreams (removeEmptyUserStreams now (setCurrPos t n))
  = userDeviceStreams (removeEmptyUserStreams now n).
Proof.
  unfold removeEmptyUserStreams. cbn [lastCleanUpTime setCurrPos].
  by case_bool_decide.
Qed.

(** A call whose sweep spares the stream of a device leaves it
    registered, and the same. *)
Lemma call_keeps c n u d p :
  streamAt n u d = Some p →
  (sweeps c.2 = true →
   is_Some (streamAt (removeEmptyUserStreams c.1 n) u d)) →
  streamAt (call c n) u d = Some p.
Proof.
  intros Hp Hkeep.
  assert (sweeps c.2 = true →
          streamAt (removeEmptyUserStreams c.1 n) u d = Some p) as Hpre.
  { intros Hs. destruct (Hkeep Hs) as [q Hq]. rewrite Hq. f_equal.
    apply removeEmptyUserStreams_streamAt in Hq. congruence. }
  clear Hkeep. destruct c as [now [i | req | r]]; unfold call;
    cbn [fst snd sweeps] in *.
  - destruct i as [ev roomID userIDs posUpdate | userID deviceIDs posUpdate
                   | posUpdate wakeUserID keyChangeUserID]; cbn [ingress].
    + specialize (Hpre eq_refl).
      assert (userDeviceStreams
                (OnNewEvent now ev roomID userIDs posUpdate n).1
              = userDeviceStreams (removeEmptyUserStreams now n)) as Hs.
      { rewrite <- (removeEmptyUserStreams_setCurrPos now
                      (WithUpdates (currPos n) posUpdate) n).
        destruct ev as [ev |]; [apply OnNewEvent_event_streams |].
        destruct (decide (roomID ≠ "" ∨ userIDs ≠ [])) as [Hsome | Hnone].
        - by rewrite OnNewEvent_users.
        - assert (roomID = "") as ->.
          { destruct (decide (roomID = "")); [done |]. exfalso. auto. }
          assert (userIDs = []) as ->.
          { destruct userIDs; [done |]. exfalso. auto. }
          by rewrite OnNewEvent_nobody. }
      by rewrite (streamAt_frame _ _ u d Hs).
    + by rewrite OnNewSendToDevice_run.
    + by rewrite OnNewKeyChange_run.
  - specialize (Hpre eq_refl).
    destruct (decide (deviceUserID req = u ∧ deviceDeviceID req = d))
      as [[<- <-] | Hne].
    + destruct (GetListener_stream now req n) as (l & _ & Hl & Hcase).
      rewrite Hpre in Hcase. destruct Hcase as (Heq & _). congruence.
    + by rewrite GetListener_other.
  - destruct (Load_frame r n) as (_ & Hs & _).
    by rewrite (streamAt_frame _ _ u d Hs).
Qed.

Lemma calls_keep cs n u d p :
  streamAt n u d = Some p → noEviction u d cs n →
  streamAt (calls cs n) u d = Some p.
Proof.
  revert n. induction cs as [| c cs IH]; intros n Hp Hno; [done |].
  destruct Hno as [Hc Hno]. cbn [calls foldl]. apply IH; [| done].
  by apply call_keeps.
Qed.

(** C9.  In every state a notifier can reach, the stream registered for
    a user and device has a cell bearing that user and device, and two
    registered streams are the same exactly when they are registered for
    the same user and device.  [GetListener] always returns a listener,
    bound to the stream registered for its device when it returns: the
    one the sweep left there, with no new cell made, or else a cell that
    did not exist before.  Two calls of [GetListener] for one device,
    with any calls in between, return listeners on the same stream as
    long as no sweep, the second call's included, removes the stream. *)
Theorem one_stream_per_device :
  (∀ n, reachable n →
     registryOK n
     ∧ ∀ u d p u' d' q,
         streamAt n u d = Some p → streamAt n u' d' = Some q →
         (p = q ↔ u = u' ∧ d = d'))
  ∧ (∀ now req n,
       ∃ l, (GetListener now req n).1 = Some l
         ∧ streamAt (GetListener now req n).2 (deviceUserID req)
                    (deviceDeviceID req) = Some (userStream l)
         ∧ match streamAt (removeEmptyUserStreams now n) (deviceUserID req)
                   (deviceDeviceID req) with
           | Some p =>
               userStream l = p
               ∧ dom (heap (GetListener now req n).2) = dom (heap n)
           | None => userStream l ∉ dom (heap n)
           end)
  ∧ (∀ now1 now2 req cs n,
       let u := deviceUserID req in
       let d := deviceDeviceID req in
       let n1 := (GetListener now1 req n).2 in
       noEviction u d cs n1 →
       is_Some (streamAt (removeEmptyUserStreams now2 (calls cs n1)) u d) →
       userStream <$> (GetListener now2 req (calls cs n1)).1
       = userStream <$> (GetListener now1 req n).1).
Proof.
  split; [| split].
  - intros n Hn. pose proof (reachable_registryOK n Hn) as Hok.
    split; [done |]. intros u d p u' d' q Hp Hq. split.
    + intros <-. destruct (Hok u d p Hp) as (s & Hs & Hu & Hd).
      destruct (Hok u' d' p Hq) as (s' & Hs' & Hu' & Hd').
      split; congruence.
    + intros [<- <-]. congruence.
  - intros now req n.
    destruct (GetListener_stream now req n) as (l & Hl & Hat & Hcase).
    exists l. split; [done |]. split; [done |].
    destruct (streamAt (removeEmptyUserStreams now n) (deviceUserID req)
                (deviceDeviceID req)).
    + by destruct Hcase as (? & ? & _).
    + by destruct Hcase as (? & _).
  - intros now1 now2 req cs n u d n1 Hno [p Hp].
    destruct (GetListener_stream now1 req n) as (l1 & Hl1 & Hat1 & _).
    destruct (GetListener_stream now2 req (calls cs n1))
      as (l2 & Hl2 & _ & Hcase).
    fold u d in Hat1, Hcase. fold n1 in Hat1. rewrite Hp in Hcase.
    destruct Hcase as (Heq & _).
    pose proof (calls_keep cs n1 u d (userStream l1) Hat1 Hno) as Hkept.
    apply removeEmptyUserStreams_streamAt in Hp.
    rewrite Hl1, Hl2. cbn [fmap option_fmap option_map]. congruence.
Qed.

(** ** Concrete checks *)

(** The join of [@u2] to [!r1], seen by [sampleNotifier]. *)
Lemma membership_transition_witness :
  Type_ (memberEvent "@u2" (Some Join)) = MRoomMember
  ∧ StateKey (memberEvent "@u2" (Some Join)) = Some "@u2"
  ∧ Membership (memberEvent "@u2" (Some Join)) = Some Join
  ∧ "@u2" ∈ joinedUsers
       (OnNewEvent 1 (Some (memberEvent "@u2" (Some Join))) "" []
          (MkToken 5 0 0) sampleNotifier).1 "!r1"
  ∧ usersToNotify 1 (memberEvent "@u2" (Some Join)) (MkToken 5 0 0)
      sampleNotifier
    = joinedUsers sampleNotifier "!r1" ++ ["@u2"].
Proof.
  split; [reflexivity |]. split; [reflexivity |]. split; [reflexivity |].
  destruct (membership_transition 1 (memberEvent "@u2" (Some Join)) "" []
              (MkToken 5 0 0) sampleNotifier "@u2" Join
              eq_refl eq_refl eq_refl) as (_ & _ & Hjoin & _).
  exact (Hjoin eq_refl).
Defined.

(** A member event for [@u2] whose content does not parse. *)
Lemma unparseable_membership_witness :
  Type_ (memberEvent "@u2" None) = MRoomMember
  ∧ Membership (memberEvent "@u2" None) = None
  ∧ roomIDToJoinedUsers
      (OnNewEvent 1 (Some (memberEvent "@u2" None)) "" [] (MkToken 5 0 0)
         sampleNotifier).1
    = roomIDToJoinedUsers sampleNotifier.
Proof.
  split; [reflexivity |]. split; [reflexivity |].
  destruct (unparseable_membership 1 (memberEvent "@u2" None) "" []
              (MkToken 5 0 0) sampleNotifier eq_refl eq_refl)
    as (Hrooms & _).
  exact Hrooms.
Defined.

(** The claim that a call with no recipient changes nothing fails: the
    current token moves. *)
Lemma no_recipient_changes_token :
  (OnNewEvent 1 None "" [] (MkToken 10 0 0) sampleNotifier).1
  ≠ sampleNotifier.
Proof.
  intros Heq. apply (f_equal currPos) in Heq. vm_compute in Heq.
  discriminate Heq.
Qed.

(** Scenario S3: of the two devices of [@u1], only [d2] is woken. *)
Example send_to_device_scenario :
  let r := OnNewSendToDevice 1 "@u1" ["d2"] (MkToken 0 9 0) sampleNotifier in
  streamAt sampleNotifier "@u1" "d1" = Some 1%positive
  ∧ streamAt sampleNotifier "@u1" "d2" = Some 2%positive
  ∧ woken r.2 = [2%positive]
  ∧ CurrentPosition r.1 = MkToken 0 9 0.
Proof. vm_compute. done. Qed.

(** Scenario S4: a key change merges into the token. *)
Example token_merge_scenario :
  CurrentPosition
    (OnNewKeyChange 1 (MkToken 0 0 4) "@u1" "@u1"
       (setCurrPos (MkToken 3 7 0) sampleNotifier)).1
  = MkToken 3 7 4.
Proof. vm_compute. done. Qed.

(** Scenario S5: six minutes of silence, and the streams are gone. *)
Example idle_eviction_scenario :
  userDeviceStreams (removeEmptyUserStreams Minute sampleNotifier)
  = userDeviceStreams sampleNotifier
  ∧ userDeviceStreams (removeEmptyUserStreams (6 * Minute) sampleNotifier)
    = ∅.
Proof. vm_compute. done. Qed.

(** Scenario S5, on identities: a second listener for [@u1]/[d1] is bound
    to the stream of the first; after an eviction the next listener gets
    a stream that did not exist before. *)
Example listener_identity_scenario :
  userStream <$> (GetListener 1 (MkRequest "@u1" "d1") sampleNotifier).1
  = Some 1%positive
  ∧ userStream <$>
      (GetListener (6 * Minute) (MkRequest "@u1" "d1") sampleNotifier).1
    = Some 4%positive
  ∧ dom (heap sampleNotifier) = {[1%positive; 2%positive; 3%positive]}.
Proof. vm_compute. done. Qed.

(** * Further properties of the notifier *)

(** ** The membership index *)

Lemma elem_of_joinedUsers n roomID u :
  u ∈ joinedUsers n roomID ↔ u ∈ roomSet n roomID.
Proof.
  unfold joinedUsers, roomSet.
  destruct (roomIDToJoinedUsers n !! roomID) as [s |]; cbn.
  - apply elem_of_elements.
  - split; [by intros ?%elem_of_nil | by intros ?%not_elem_of_empty].
Qed.

Lemma roomSet_addJoinedUser roomID userID n r :
  roomSet (addJoinedUser roomID userID n) r
  = if decide (roomID = r) then {[userID]} ∪ roomSet n roomID
    else roomSet n r.
Proof.
  unfold roomSet at 1, addJoinedUser. cbn [roomIDToJoinedUsers setRooms].
  case_decide as Hr.
  - subst r. by rewrite lookup_insert_eq.
  - by rewrite lookup_insert_ne.
Qed.

Lemma roomSet_removeJoinedUser roomID userID n r :
  roomSet (removeJoinedUser roomID userID n) r
  = if decide (roomID = r) then roomSet n roomID ∖ {[userID]}
    else roomSet n r.
Proof.
  unfold roomSet at 1, removeJoinedUser. cbn [roomIDToJoinedUsers setRooms].
  case_decide as Hr.
  - subst r. by rewrite lookup_insert_eq.
  - by rewrite lookup_insert_ne.
Qed.

(** X1.  [addJoinedUser] makes the user a joined user of the room and
    changes the membership of nobody else, in this room or another; the
    room gets an entry when it had none. *)
Theorem addJoinedUser_joined roomID userID n :
  (∀ r u, u ∈ joinedUsers (addJoinedUser roomID userID n) r
          ↔ (r = roomID ∧ u = userID) ∨ u ∈ joinedUsers n r)
  ∧ dom (roomIDToJoinedUsers (addJoinedUser roomID userID n))
    = {[roomID]} ∪ dom (roomIDToJoinedUsers n)
  ∧ onlyRooms n (addJoinedUser roomID userID n).
Proof.
  split; [| split; [| done]].
  - intros r u. rewrite !elem_of_joinedUsers, roomSet_addJoinedUser.
    case_decide as Hr.
    + subst r. rewrite elem_of_union, elem_of_singleton. intuition (auto; congruence).
    + intuition (auto; congruence).
  - unfold addJoinedUser. cbn [roomIDToJoinedUsers setRooms].
    apply dom_insert_L.
Qed.

(** X2.  [removeJoinedUser] makes the user no joined user of the room and
    changes the membership of nobody else; removing from a room without
    an entry gives the room an empty entry, and an emptied room keeps its
    entry. *)
Theorem removeJoinedUser_left roomID userID n :
  (∀ r u, u ∈ joinedUsers (removeJoinedUser roomID userID n) r
          ↔ u ∈ joinedUsers n r ∧ ¬ (r = roomID ∧ u = userID))
  ∧ dom (roomIDToJoinedUsers (removeJoinedUser roomID userID n))
    = {[roomID]} ∪ dom (roomIDToJoinedUsers n)
  ∧ onlyRooms n (removeJoinedUser roomID userID n).
Proof.
  split; [| split; [| done]].
  - intros r u. rewrite !elem_of_joinedUsers, roomSet_removeJoinedUser.
    case_decide as Hr.
    + subst r. rewrite elem_of_difference, elem_of_singleton. intuition (auto; congruence).
    + intuition (auto; congruence).
  - unfold removeJoinedUser. cbn [roomIDToJoinedUsers setRooms].
    apply dom_insert_L.
Qed.

Lemma roomSet_ensure roomID n r :
  roomSet (setRooms (<[roomID := roomSet n roomID]> (roomIDToJoinedUsers n)) n)
          r
  = roomSet n r.
Proof.
  unfold roomSet at 1. cbn [roomIDToJoinedUsers setRooms].
  destruct (decide (roomID = r)) as [<- | Hr].
  - by rewrite lookup_insert_eq.
  - by rewrite lookup_insert_ne.
Qed.

Lemma roomSet_addAll roomID (userIDs : list string) n r u :
  u ∈ roomSet (foldl (λ n userID, addJoinedUser roomID userID n) n userIDs) r
  ↔ u ∈ roomSet n r ∨ (r = roomID ∧ u ∈ userIDs).
Proof.
  revert n. induction userIDs as [| x userIDs IH]; intros n.
  - cbn [foldl]. split; [auto |]. intros [? | [_ ?%elem_of_nil]]; done.
  - cbn [foldl]. rewrite IH, roomSet_addJoinedUser, elem_of_cons.
    case_decide as Hr.
    + subst r. rewrite elem_of_union, elem_of_singleton.
      intuition (auto; congruence).
    + intuition (auto; congruence).
Qed.

Lemma dom_addAll roomID (userIDs : list string) n :
  dom (roomIDToJoinedUsers n) ⊆
  dom (roomIDToJoinedUsers
         (foldl (λ n userID, addJoinedUser roomID userID n) n userIDs))
  ∧ (dom (roomIDToJoinedUsers
            (foldl (λ n userID, addJoinedUser roomID userID n) n userIDs))
     ⊆ {[roomID]} ∪ dom (roomIDToJoinedUsers n)).
Proof.
  revert n. induction userIDs as [| x userIDs IH]; intros n.
  - cbn [foldl]. split; [done |]. apply union_subseteq_r.
  - cbn [foldl]. destruct (IH (addJoinedUser roomID x n)) as [IH1 IH2].
    assert (dom (roomIDToJoinedUsers (addJoinedUser roomID x n))
            = {[roomID]} ∪ dom (roomIDToJoinedUsers n)) as Hd.
    { unfold addJoinedUser. cbn [roomIDToJoinedUsers setRooms].
      apply dom_insert_L. }
    rewrite Hd in IH1, IH2. split.
    + etrans; [| exact IH1]. apply union_subseteq_r.
    + etrans; [exact IH2 |]. intros r.
      rewrite !elem_of_union. tauto.
Qed.

(** The bulk load over a list of rooms. *)
Lemma loadRooms_fold (L : list (string * list string)) n :
  let n' :=
    foldl (λ n '(roomID, userIDs),
             foldl (λ n userID, addJoinedUser roomID userID n)
                   (setRooms (<[roomID := roomSet n roomID]>
                                (roomIDToJoinedUsers n)) n)
                   userIDs) n L in
  (∀ r u, u ∈ roomSet n' r
          ↔ u ∈ roomSet n r ∨ ∃ us, (r, us) ∈ L ∧ u ∈ us)
  ∧ (∀ r, r ∈ dom (roomIDToJoinedUsers n')
          ↔ r ∈ dom (roomIDToJoinedUsers n) ∨ r ∈ L.*1).
Proof.
  revert n. induction L as [| [roomID userIDs] L IH]; intros n; cbv zeta.
  - cbn [foldl]. split.
    + intros r u. split; [auto |].
      intros [? | (us & ?%elem_of_nil & _)]; done.
    + intros r. split; [auto |]. intros [? | ?%elem_of_nil]; done.
  - cbn [foldl].
    set (n0 := setRooms (<[roomID := roomSet n roomID]>
                           (roomIDToJoinedUsers n)) n).
    set (n1 := foldl (λ n userID, addJoinedUser roomID userID n) n0 userIDs).
    destruct (IH n1) as [IH1 IH2]. cbv zeta in IH1, IH2. split.
    + intros r u. rewrite IH1. unfold n1. rewrite roomSet_addAll.
      unfold n0. rewrite roomSet_ensure. split.
      * intros [[? | [-> Hu]] | (us & Hin & Hu)].
        -- by left.
        -- right. exists userIDs. split; [left | done].
        -- right. exists us. split; [by right | done].
      * intros [? | (us & Hin & Hu)]; [by left; left |].
        apply elem_of_cons in Hin as [Heq | Hin].
        -- inversion Heq; subst. left. right. done.
        -- right. eauto.
    + intros r. rewrite IH2. cbn [fmap list_fmap fst]. rewrite elem_of_cons.
      destruct (dom_addAll roomID userIDs n0) as [Hd1 Hd2]. fold n1 in Hd1, Hd2.
      assert (dom (roomIDToJoinedUsers n0)
              = {[roomID]} ∪ dom (roomIDToJoinedUsers n)) as Hd0.
      { unfold n0. cbn [roomIDToJoinedUsers setRooms]. apply dom_insert_L. }
      rewrite Hd0 in Hd1, Hd2. split.
      * intros [Hr | Hr]; [| by right; right].
        apply Hd2 in Hr. rewrite !elem_of_union, elem_of_singleton in Hr.
        destruct Hr as [-> | [-> | Hr]]; auto.
      * intros [Hr | [-> | Hr]]; [| | by right].
        -- left. apply Hd1. apply elem_of_union. by right.
        -- left. apply Hd1. apply elem_of_union. left.
           by apply elem_of_singleton.
Qed.

(** X3.  [Load] with the rooms read from the database is additive: a user
    is joined to a room afterwards exactly when it was before or the
    database lists it for the room; every room the database lists gets an
    entry, even with no users; nothing but the membership index changes.
    When the database fails, [Load] changes nothing. *)
Theorem Load_additive :
  (∀ m n r u,
     u ∈ joinedUsers (Load (Some m) n) r
     ↔ u ∈ joinedUsers n r ∨ ∃ us, m !! r = Some us ∧ u ∈ us)
  ∧ (∀ m n,
       dom (roomIDToJoinedUsers (Load (Some m) n))
       = dom (roomIDToJoinedUsers n) ∪ dom m)
  ∧ (∀ r n, onlyRooms n (Load r n))
  ∧ (∀ n, Load None n = n).
Proof.
  split; [| split; [| split; [apply Load_frame | done]]].
  - intros m n r u. rewrite !elem_of_joinedUsers. cbn [Load].
    unfold setUsersJoinedToRooms.
    destruct (loadRooms_fold (map_to_list m) n) as [H1 _]. cbv zeta in H1.
    rewrite H1. split.
    + intros [? | (us & Hin & Hu)]; [by left |]. right. exists us.
      split; [by apply elem_of_map_to_list | done].
    + intros [? | (us & Hin & Hu)]; [by left |]. right. exists us.
      split; [by apply elem_of_map_to_list | done].
  - intros m n. cbn [Load]. unfold setUsersJoinedToRooms.
    destruct (loadRooms_fold (map_to_list m) n) as [_ H2]. cbv zeta in H2.
    apply set_eq. intros r. rewrite H2, elem_of_union. split.
    + intros [? | Hr]; [by left |]. right.
      apply list_elem_of_fmap in Hr as ([r' us] & -> & Hin).
      apply elem_of_map_to_list in Hin. apply elem_of_dom. eauto.
    + intros [? | Hr]; [by left |]. right.
      apply elem_of_dom in Hr as [us Hus]. apply list_elem_of_fmap.
      exists (r, us). split; [done |]. by apply elem_of_map_to_list.
Qed.

(** What [routeEvent] does to the notifier, by the kind of the event. *)
Lemma routeEvent_cases ev n :
  (¬ isTransition ev ∧ (routeEvent ev n).2.1 = n)
  ∨ ∃ target,
      StateKey ev = Some target ∧ Type_ ev = MRoomMember
      ∧ ((Membership ev = Some Join
          ∧ (routeEvent ev n).2.1 = addJoinedUser (RoomID ev) target n)
         ∨ ((Membership ev = Some Leave ∨ Membership ev = Some Ban)
            ∧ (routeEvent ev n).2.1
              = removeJoinedUser (RoomID ev) target n)).
Proof.
  unfold routeEvent, isTransition. case_decide as Ht.
  2:{ left. split; [| done]. by intros (? & _). }
  destruct (StateKey ev) as [target |].
  2:{ left. split; [| done]. by intros (_ & [? ?] & _). }
  destruct (Membership ev) as [membership |].
  2:{ left. split; [| done]. by intros (_ & _ & [? | [? | ?]]). }
  case_decide as Hi.
  { left. subst membership. split; [| done].
    by intros (_ & _ & [? | [? | ?]]). }
  case_decide as Hj.
  { right. exists target. subst membership. split; [done |]. split; [done |].
    left. done. }
  case_decide as Hl.
  { right. exists target. subst membership. split; [done |]. split; [done |].
    right. split; [by left | done]. }
  case_decide as Hb.
  { right. exists target. subst membership. split; [done |]. split; [done |].
    right. split; [by right | done]. }
  left. split; [| done]. intros (_ & _ & [? | [? | ?]]); congruence.
Qed.

(** X4.  Whatever event [OnNewEvent] is given, the membership index
    changes at most for the event's room and the user named by its state
    key: every other user of that room, and every user of every other
    room, is joined afterwards exactly when it was before. *)
Theorem member_event_touches_only_target now e roomID userIDs posUpdate n :
  let r := OnNewEvent now (Some e) roomID userIDs posUpdate n in
  ∀ room u, ¬ (room = RoomID e ∧ StateKey e = Some u) →
    (u ∈ joinedUsers r.1 room ↔ u ∈ joinedUsers n room).
Proof.
  intros r room u Hne.
  pose proof (OnNewEvent_event_rooms now e roomID userIDs posUpdate n) as Hr.
  fold r in Hr. rewrite (joinedUsers_frame _ _ room Hr).
  destruct (advanced_frame now posUpdate n) as (Hpre & _).
  rewrite <- (joinedUsers_frame _ _ room Hpre).
  destruct (routeEvent_cases e (advanced now posUpdate n))
    as [[_ ->] | (target & Hk & _ & [[_ ->] | [_ ->]])]; [done | |].
  - rewrite !elem_of_joinedUsers, roomSet_addJoinedUser.
    case_decide as Hroom; [| done]. subst room.
    rewrite elem_of_union, elem_of_singleton. split; [| auto].
    intros [-> | ?]; [| done]. exfalso. by apply Hne.
  - rewrite !elem_of_joinedUsers, roomSet_removeJoinedUser.
    case_decide as Hroom; [| done]. subst room.
    rewrite elem_of_difference, elem_of_singleton. split; [by intros [? _] |].
    intros Hu. split; [done |]. intros ->. by apply Hne.
Qed.

Lemma ingress_rooms now i n :
  roomIDToJoinedUsers (ingress now i n).1 = roomIDToJoinedUsers n
  ∨ ∃ ev roomID userIDs posUpdate,
      i = NewEvent (Some ev) roomID userIDs posUpdate ∧ isTransition ev.
Proof.
  destruct i as [ev roomID userIDs posUpdate | userID deviceIDs posUpdate
                 | posUpdate wakeUserID keyChangeUserID]; cbn [ingress].
  - destruct (advanced_frame now posUpdate n) as (Hpre & _).
    destruct ev as [ev |].
    + rewrite OnNewEvent_event_rooms.
      destruct (routeEvent_cases ev (advanced now posUpdate n))
        as [[_ ->] | (target & Hk & Ht & Hm)]; [by left |].
      right. exists ev, roomID, userIDs, posUpdate. split; [done |].
      split; [done |]. split; [by rewrite Hk |].
      destruct Hm as [[? _] | [[? | ?] _]]; auto.
    + left. destruct (decide (roomID ≠ "" ∨ userIDs ≠ [])) as [Hsome | Hnone].
      * by rewrite OnNewEvent_users.
      * assert (roomID = "") as ->.
        { destruct (decide (roomID = "")); [done |]. exfalso. auto. }
        assert (userIDs = []) as ->.
        { destruct userIDs; [done |]. exfalso. auto. }
        by rewrite OnNewEvent_nobody.
  - left. by rewrite OnNewSendToDevice_run.
  - left. by rewrite OnNewKeyChange_run.
Qed.

(** X5.  The membership index is edited by nothing but a member event
    with a state key whose membership is join, leave or ban: every other
    ingress call (an event of another type, a member event without state
    key, an invite, a membership that does not parse or is none of the
    four, a call by room or by users, send-to-device, key change) leaves
    the index as it was. *)
Theorem index_changes_only_on_transition now i n :
  (∀ ev roomID userIDs posUpdate,
     i = NewEvent (Some ev) roomID userIDs posUpdate → ¬ isTransition ev) →
  roomIDToJoinedUsers (ingress now i n).1 = roomIDToJoinedUsers n.
Proof.
  intros Hno. destruct (ingress_rooms now i n)
    as [? | (ev & roomID & userIDs & posUpdate & Hi & Ht)]; [done |].
  exfalso. by eapply Hno.
Qed.

(** An event reaches every registered stream of the users joined to
    its room. *)
Lemma event_wakes_joined now e roomID userIDs posUpdate n u d p :
  let latest := WithUpdates (currPos n) posUpdate in
  let r := OnNewEvent now (Some e) roomID userIDs posUpdate n in
  u ∈ joinedUsers n (RoomID e) → streamAt r.1 u d = Some p →
  Woke p latest latest ∈ r.2.
Proof.
  intros latest r Hu Hd. unfold r in *. clear r.
  rewrite OnNewEvent_event in *. cbn [fst snd] in *.
  apply elem_of_app. right. apply list_elem_of_fmap. exists p.
  split; [done |]. apply elem_of_streamsOf. exists u, d. split.
  - unfold usersToNotify.
    destruct (routeEvent_users e (advanced now posUpdate n))
      as (extra & -> & _).
    apply elem_of_app. left.
    destruct (advanced_frame now posUpdate n) as (Hpre & _).
    by rewrite (joinedUsers_frame _ _ (RoomID e) Hpre).
  - destruct (routeEvent_frame e (advanced now posUpdate n))
      as [(_ & Hs & _) _].
    by rewrite <- (streamAt_frame _ _ u d Hs).
Qed.

(** X6.  An event wakes the joined users of its room, whatever its type
    and membership: every stream the registry holds for a user who was
    joined to the event's room before the call is sent the new current
    token. *)
Theorem room_event_wakes_joined now e roomID userIDs posUpdate n u d p :
  let latest := WithUpdates (currPos n) posUpdate in
  let r := OnNewEvent now (Some e) roomID userIDs posUpdate n in
  u ∈ joinedUsers n (RoomID e) → streamAt r.1 u d = Some p →
  Woke p latest latest ∈ r.2.
Proof. apply event_wakes_joined. Qed.

(** X7.  [OnNewKeyChange] wakes the streams of [wakeUserID], all of them
    and no other; [keyChangeUserID] has no influence on what it does.  It
    runs no sweep: the registry and the time of the last sweep are as
    before even when a sweep is due, and so is the membership index. *)
Theorem OnNewKeyChange_wakes_user now posUpdate wakeUserID keyChangeUserID n :
  let latest := WithUpdates (currPos n) posUpdate in
  let r := OnNewKeyChange now posUpdate wakeUserID keyChangeUserID n in
  (∀ other, OnNewKeyChange now posUpdate wakeUserID other n = r)
  ∧ (∀ p, p ∈ woken r.2 ↔ ∃ d, streamAt n wakeUserID d = Some p)
  ∧ (∀ p, p ∉ woken r.2 → heap r.1 !! p = heap n !! p)
  ∧ CurrentPosition r.1 = latest
  ∧ userDeviceStreams r.1 = userDeviceStreams n
  ∧ lastCleanUpTime r.1 = lastCleanUpTime n
  ∧ roomIDToJoinedUsers r.1 = roomIDToJoinedUsers n.
Proof.
  intros latest r. split; [done |]. unfold r.
  rewrite OnNewKeyChange_run. cbn [fst snd]. fold latest.
  rewrite woken_Woke. repeat split; try done.
  - intros (u & d & Hu%list_elem_of_singleton & Hd)%elem_of_streamsOf.
    subst u. eauto.
  - intros [d Hd]. apply elem_of_streamsOf. exists wakeUserID, d.
    split; [by apply list_elem_of_singleton | done].
  - intros p Hp. cbn [heap setHeap]. by apply broadcastHeap_other.
Qed.

(** ** The time of the last sweep *)

Lemma removeEmptyUserStreams_last now n :
  lastCleanUpTime (removeEmptyUserStreams now n) = lastCleanUpTime n
  ∨ (lastCleanUpTime (removeEmptyUserStreams now n) = now
     ∧ lastCleanUpTime n + Minute ≤ now).
Proof.
  unfold removeEmptyUserStreams. case_bool_decide; [by left |].
  right. split; [done | lia].
Qed.

Lemma advanced_last now posUpdate n :
  lastCleanUpTime (advanced now posUpdate n)
  = lastCleanUpTime (removeEmptyUserStreams now n).
Proof.
  unfold advanced, removeEmptyUserStreams. cbn [lastCleanUpTime setCurrPos].
  by case_bool_decide.
Qed.

Lemma call_last c n :
  lastCleanUpTime (call c n) = lastCleanUpTime n
  ∨ (sweeps c.2 = true ∧ lastCleanUpTime (call c n) = c.1
     ∧ lastCleanUpTime n + Minute ≤ c.1).
Proof.
  assert (∀ n', sweeps c.2 = true →
            lastCleanUpTime n'
            = lastCleanUpTime (removeEmptyUserStreams c.1 n) →
            lastCleanUpTime n' = lastCleanUpTime n
            ∨ (sweeps c.2 = true ∧ lastCleanUpTime n' = c.1
               ∧ lastCleanUpTime n + Minute ≤ c.1)) as Hswept.
  { intros n' Hs ->.
    destruct (removeEmptyUserStreams_last c.1 n) as [? | [? ?]]; auto. }
  destruct c as [now [i | req | r]]; unfold call; cbn [fst snd] in *.
  - destruct i as [ev roomID userIDs posUpdate | userID deviceIDs posUpdate
                   | posUpdate wakeUserID keyChangeUserID]; cbn [ingress].
    + apply Hswept; [done |]. rewrite <- (advanced_last now posUpdate n).
      destruct ev as [ev |].
      * rewrite OnNewEvent_event. cbn [fst lastCleanUpTime setHeap].
        apply routeEvent_frame.
      * destruct (decide (roomID ≠ "" ∨ userIDs ≠ [])) as [Hsome | Hnone].
        -- by rewrite OnNewEvent_users.
        -- assert (roomID = "") as ->.
           { destruct (decide (roomID = "")); [done |]. exfalso. auto. }
           assert (userIDs = []) as ->.
           { destruct userIDs; [done |]. exfalso. auto. }
           by rewrite OnNewEvent_nobody.
    + left. by rewrite OnNewSendToDevice_run.
    + left. by rewrite OnNewKeyChange_run.
  - apply Hswept; [done |]. rewrite GetListener_run. cbv zeta.
    by destruct (streamAt (removeEmptyUserStreams now n) (deviceUserID req)
                   (deviceDeviceID req)).
  - left. apply Load_frame.
Qed.

(** X8.  The time of the last sweep only moves forward, and by a minute
    at least: a call either leaves it as it was, or is a call that
    sweeps, made a minute or more after it, and sets it to the time of
    the call.  Over any history it never decreases, whatever the clock
    readings of the calls. *)
Theorem lastCleanUpTime_monotone :
  (∀ c n,
     lastCleanUpTime (call c n) = lastCleanUpTime n
     ∨ (sweeps c.2 = true ∧ lastCleanUpTime (call c n) = c.1
        ∧ lastCleanUpTime n + Minute ≤ c.1))
  ∧ (∀ cs n, lastCleanUpTime n ≤ lastCleanUpTime (calls cs n)).
Proof.
  split; [apply call_last |].
  intros cs. induction cs as [| c cs IH]; intros n; [done |].
  cbn [calls foldl]. etrans; [| apply IH].
  destruct (call_last c n) as [-> | (_ & -> & Hle)]; [done |].
  unfold Minute in Hle. lia.
Qed.

(** ** The registry over histories *)

Lemma elem_of_registeredStreams n p :
  p ∈ registeredStreams n ↔ ∃ u d, streamAt n u d = Some p.
Proof.
  unfold registeredStreams, streamAt. rewrite list_elem_of_bind. split.
  - intros ([u m] & Hp & Hum). apply elem_of_map_to_list in Hum.
    cbn [snd] in Hp. apply list_elem_of_fmap in Hp as ([d q] & -> & Hd).
    apply elem_of_map_to_list in Hd. exists u, d. by rewrite Hum.
  - intros (u & d & Hud).
    destruct (userDeviceStreams n !! u) as [m |] eqn:Hum; [| done].
    cbn [mbind option_bind] in Hud. exists (u, m). split.
    + cbn [snd]. apply list_elem_of_fmap. exists (d, p).
      split; [done |]. by apply elem_of_map_to_list.
    + by apply elem_of_map_to_list.
Qed.

Lemma ingress_streams now i n :
  userDeviceStreams (ingress now i n).1
  = userDeviceStreams (if sweeps (Produce i)
                       then removeEmptyUserStreams now n else n).
Proof.
  destruct i as [ev roomID userIDs posUpdate | userID deviceIDs posUpdate
                 | posUpdate wakeUserID keyChangeUserID];
    cbn [ingress sweeps].
  - rewrite <- (removeEmptyUserStreams_setCurrPos now
                  (WithUpdates (currPos n) posUpdate) n).
    destruct ev as [ev |]; [apply OnNewEvent_event_streams |].
    destruct (decide (roomID ≠ "" ∨ userIDs ≠ [])) as [Hsome | Hnone].
    + by rewrite OnNewEvent_users.
    + assert (roomID = "") as ->.
      { destruct (decide (roomID = "")); [done |]. exfalso. auto. }
      assert (userIDs = []) as ->.
      { destruct userIDs; [done |]. exfalso. auto. }
      by rewrite OnNewEvent_nobody.
  - by rewrite OnNewSendToDevice_run.
  - by rewrite OnNewKeyChange_run.
Qed.

Lemma removeEmptyUserStreams_tables now n :
  tablesNonEmpty n → tablesNonEmpty (removeEmptyUserStreams now n).
Proof.
  intros Hn. unfold removeEmptyUserStreams. case_bool_decide; [done |].
  intros u m. cbn [userDeviceStreams setStreams]. rewrite sweep_lookup.
  destruct (userDeviceStreams n !! u) as [m0 |] eqn:Hu; [| done].
  cbn [mbind option_bind]. unfold sweptEntry.
  rewrite decide_False by (by eapply Hn). unfold normalize.
  case_decide; [done |]. congruence.
Qed.

Lemma call_tables c n : tablesNonEmpty n → tablesNonEmpty (call c n).
Proof.
  intros Hn. destruct c as [now [i | req | r]]; unfold call; cbn [fst snd].
  - intros u m. rewrite ingress_streams.
    destruct (sweeps (Produce i)); [| apply Hn].
    by apply removeEmptyUserStreams_tables.
  - pose proof (removeEmptyUserStreams_tables now n Hn) as Hpre.
    rewrite GetListener_run. cbv zeta.
    destruct (streamAt (removeEmptyUserStreams now n) (deviceUserID req)
                (deviceDeviceID req)); [done |].
    intros u m. cbn [snd streamListener userDeviceStreams setHeap setStreams].
    destruct (decide (deviceUserID req = u)) as [<- | Hne].
    + rewrite lookup_insert_eq. intros [= <-]. apply insert_non_empty.
    + rewrite lookup_insert_ne by done. apply Hpre.
  - intros u m. destruct (Load_frame r n) as (_ & -> & _). apply Hn.
Qed.

(** X9.  The registry never keeps a user without streams: the property
    is kept by every call, it holds in every state a notifier can reach,
    and there a user has an entry in the registry exactly when a stream
    is registered for one of its devices. *)
Theorem registry_tables_non_empty :
  (∀ c n, tablesNonEmpty n → tablesNonEmpty (call c n))
  ∧ (∀ n, reachable n → tablesNonEmpty n)
  ∧ (∀ n, reachable n → ∀ u,
       u ∈ dom (userDeviceStreams n) ↔ ∃ d p, streamAt n u d = Some p).
Proof.
  assert (∀ n, reachable n → tablesNonEmpty n) as Hreach.
  { induction 1 as [now p | c n _ IH]; [| by apply call_tables].
    intros u m. unfold NewNotifier. cbn [userDeviceStreams].
    by rewrite lookup_empty. }
  split; [apply call_tables |]. split; [done |].
  intros n Hn u. rewrite elem_of_dom. unfold streamAt. split.
  - intros [m Hm]. rewrite Hm. cbn [mbind option_bind].
    apply map_choose. by eapply Hreach.
  - intros (d & p & Hd).
    destruct (userDeviceStreams n !! u); [eauto | done].
Qed.

Lemma GetListener_heap now req n :
  sameIdentity (heap n) (heap (GetListener now req n).2).
Proof.
  destruct (removeEmptyUserStreams_frame now n) as (_ & _ & Hh).
  rewrite GetListener_run. cbv zeta.
  destruct (streamAt (removeEmptyUserStreams now n) (deviceUserID req)
              (deviceDeviceID req)); cbn [snd streamListener heap setHeap].
  - rewrite Hh. by apply sameIdentity_alter.
  - cbn [setStreams heap setHeap].
    eapply sameIdentity_trans; [| by apply sameIdentity_alter].
    apply sameIdentity_insert. apply not_elem_of_dom, is_fresh.
Qed.

Lemma call_heap c n : sameIdentity (heap n) (heap (call c n)).
Proof.
  destruct c as [now [i | req | r]]; unfold call; cbn [fst snd].
  - apply ingress_heap.
  - apply GetListener_heap.
  - destruct (Load_frame r n) as (_ & _ & _ & ->). apply sameIdentity_refl.
Qed.

Lemma calls_heap cs n : sameIdentity (heap n) (heap (calls cs n)).
Proof.
  revert n. induction cs as [| c cs IH]; intros n.
  - apply sameIdentity_refl.
  - cbn [calls foldl]. eapply sameIdentity_trans; [apply call_heap | apply IH].
Qed.

Lemma sameIdentity_dom h h' p : sameIdentity h h' → p ∈ dom h → p ∈ dom h'.
Proof.
  intros Hs [s Hp]%elem_of_dom. destruct (Hs p s Hp) as (s' & Hs' & _).
  apply elem_of_dom. eauto.
Qed.

(** A call registers only streams that were registered, or that it has
    just made. *)
Lemma call_registered c n q :
  q ∈ registeredStreams (call c n) →
  q ∈ registeredStreams n ∨ q ∉ dom (heap n).
Proof.
  rewrite !elem_of_registeredStreams. intros (u & d & Hq).
  destruct c as [now [i | req | r]]; unfold call in Hq; cbn [fst snd] in Hq.
  - left. exists u, d. by apply (ingress_registry now i n).
  - destruct (decide (deviceUserID req = u ∧ deviceDeviceID req = d))
      as [[<- <-] | Hne].
    + destruct (GetListener_stream now req n) as (l & _ & Hl & Hcase).
      assert (q = userStream l) as -> by congruence.
      destruct (streamAt (removeEmptyUserStreams now n) (deviceUserID req)
                  (deviceDeviceID req)) as [p |] eqn:Hp.
      * destruct Hcase as (-> & _). left.
        exists (deviceUserID req), (deviceDeviceID req).
        by apply removeEmptyUserStreams_streamAt in Hp.
      * right. apply Hcase.
    + rewrite GetListener_other in Hq by done. left. exists u, d.
      by apply removeEmptyUserStreams_streamAt in Hq.
  - left. exists u, d. destruct (Load_frame r n) as (_ & Hs & _).
    by rewrite (streamAt_frame _ _ u d Hs) in Hq.
Qed.

(** A call broadcasts only to streams that were registered when it was
    made. *)
Lemma callEffects_registered c n q :
  q ∈ woken (callEffects c n) → q ∈ registeredStreams n.
Proof.
  rewrite elem_of_registeredStreams.
  destruct c as [now [i | req | r]]; unfold callEffects; cbn [fst snd];
    [| by intros ?%elem_of_nil | by intros ?%elem_of_nil].
  destruct i as [ev roomID userIDs posUpdate | userID deviceIDs posUpdate
                 | posUpdate wakeUserID keyChangeUserID]; cbn [ingress].
  - destruct ev as [ev |].
    + rewrite OnNewEvent_event. cbn [snd].
      rewrite woken_app, woken_routed, woken_Woke, app_nil_l.
      intros (u & d & _ & Hd)%elem_of_streamsOf. exists u, d.
      by apply advanced_streamAt in Hd.
    + destruct (decide (roomID ≠ "" ∨ userIDs ≠ [])) as [Hsome | Hnone].
      * rewrite OnNewEvent_users by done. cbn [snd]. rewrite woken_Woke.
        intros (u & d & _ & Hd)%elem_of_streamsOf. exists u, d.
        by apply advanced_streamAt in Hd.
      * assert (roomID = "") as ->.
        { destruct (decide (roomID = "")); [done |]. exfalso. auto. }
        assert (userIDs = []) as ->.
        { destruct userIDs; [done |]. exfalso. auto. }
        rewrite OnNewEvent_nobody. by intros ?%elem_of_nil.
  - rewrite OnNewSendToDevice_run. cbn [snd]. rewrite woken_Woke.
    intros (d & _ & Hd)%elem_of_devicesOf. eauto.
  - rewrite OnNewKeyChange_run. cbn [snd]. rewrite woken_Woke.
    intros (u & d & _ & Hd)%elem_of_streamsOf. eauto.
Qed.

(** X10.  A stream that the registry has dropped is out for good: over
    any later history of calls it is never registered again, and no
    ingress call broadcasts to it, so a listener still bound to it is not
    woken by the notifier any more. *)
Theorem dropped_stream_never_woken cs n p :
  p ∈ dom (heap n) → p ∉ registeredStreams n →
  (p ∉ registeredStreams (calls cs n)) ∧ p ∉ woken (effects cs n).
Proof.
  revert n. induction cs as [| c cs IH]; intros n Hp Hno.
  - split; [done | apply not_elem_of_nil].
  - cbn [calls foldl effects].
    assert (p ∉ registeredStreams (call c n)) as Hno'.
    { intros [? | ?]%call_registered; done. }
    assert (p ∈ dom (heap (call c n))) as Hp'.
    { eapply sameIdentity_dom; [apply call_heap | done]. }
    destruct (IH (call c n) Hp' Hno') as [IH1 IH2]. split; [done |].
    rewrite woken_app. intros [Hw | Hw]%elem_of_app; [| done].
    by apply callEffects_registered in Hw.
Qed.

Lemma reachable_calls cs n : reachable n → reachable (calls cs n).
Proof.
  revert n. induction cs as [| c cs IH]; intros n Hn; [done |].
  cbn [calls foldl]. apply IH. by constructor.
Qed.

Lemma registryOK_calls cs n : registryOK n → registryOK (calls cs n).
Proof.
  revert n. induction cs as [| c cs IH]; intros n Hn; [done |].
  cbn [calls foldl]. apply IH. by apply registryOK_call.
Qed.

(** X11.  After an eviction a reader gets a new stream: when the sweep of
    a later [GetListener] finds no stream for the device, the listener it
    returns is bound to a stream other than the one an earlier listener
    for the same device was given, and that earlier stream is no longer
    in the registry. *)
Theorem evicted_stream_replaced now1 now2 req cs n :
  reachable n →
  let u := deviceUserID req in
  let d := deviceDeviceID req in
  let n1 := (GetListener now1 req n).2 in
  let n2 := calls cs n1 in
  streamAt (removeEmptyUserStreams now2 n2) u d = None →
  ∃ l1 l2,
    (GetListener now1 req n).1 = Some l1
    ∧ (GetListener now2 req n2).1 = Some l2
    ∧ userStream l2 ≠ userStream l1
    ∧ userStream l1 ∉ registeredStreams (GetListener now2 req n2).2.
Proof.
  intros Hn u d n1 n2 Hnone.
  pose proof (reachable_registryOK n Hn) as Hok.
  pose proof (registryOK_GetListener now1 req n Hok) as Hok1. fold n1 in Hok1.
  pose proof (registryOK_calls cs n1 Hok1) as Hok2. fold n2 in Hok2.
  pose proof (registryOK_GetListener now2 req n2 Hok2) as Hok3.
  destruct (GetListener_stream now1 req n) as (l1 & Hl1 & Hat1 & _).
  destruct (GetListener_stream now2 req n2) as (l2 & Hl2 & Hat2 & Hcase).
  fold u d n1 in Hat1. fold u d in Hat2, Hcase. rewrite Hnone in Hcase.
  destruct Hcase as [Hfresh _].
  destruct (Hok1 u d (userStream l1) Hat1) as (s1 & Hs1 & Hu1 & Hd1).
  destruct (calls_heap cs n1 _ _ Hs1) as (s2 & Hs2 & Hu2 & Hd2). fold n2 in Hs2.
  assert (userStream l2 ≠ userStream l1) as Hne.
  { intros Heq. apply Hfresh. rewrite Heq. apply elem_of_dom. eauto. }
  exists l1, l2. split; [done |]. split; [done |]. split; [done |].
  rewrite elem_of_registeredStreams. intros (u' & d' & Hreg).
  destruct (Hok3 u' d' _ Hreg) as (s3 & Hs3 & Hu3 & Hd3).
  destruct (GetListener_heap now2 req n2 _ _ Hs2) as (s3' & Hs3' & Hu3' & Hd3').
  assert (u' = u ∧ d' = d) as [-> ->] by (split; congruence).
  congruence.
Qed.

(** X12.  [fetchUserDeviceStream] in its making form always returns a
    stream, and asking again, in either form, returns that same stream
    and changes nothing; the streams of all other devices stay where they
    were.  In its looking form it never changes the notifier, and
    returns nil exactly when no stream is registered for the device. *)
Theorem fetchUserDeviceStream_idempotent now now' u d n :
  let r := fetchUserDeviceStream now u d true n in
  (∃ p, r.1 = Some p
        ∧ fetchUserDeviceStream now' u d true r.2 = (Some p, r.2)
        ∧ fetchUserDeviceStream now' u d false r.2 = (Some p, r.2))
  ∧ (∀ u' d', ¬ (u' = u ∧ d' = d) → streamAt r.2 u' d' = streamAt n u' d')
  ∧ fetchUserDeviceStream now u d false n = (streamAt n u d, n).
Proof.
  intros r. split; [| split; [| apply fetchUserDeviceStream_lookup]].
  - unfold r. rewrite fetchUserDeviceStream_make.
    destruct (streamAt n u d) as [p |] eqn:Hp.
    + exists p. cbn [fst snd]. split; [done |].
      rewrite fetchUserDeviceStream_make, fetchUserDeviceStream_lookup.
      by rewrite Hp.
    + cbv zeta. cbn [fst snd]. eexists. split; [done |].
      rewrite fetchUserDeviceStream_make, fetchUserDeviceStream_lookup.
      match goal with |- context [streamAt ?m u d] =>
        assert (streamAt m u d = Some (fresh (dom (heap n)))) as ->
      end; [| done].
      etrans; [apply (streamAt_insert n) |]. by rewrite decide_True.
  - intros u' d' Hne. unfold r. rewrite fetchUserDeviceStream_make.
    destruct (streamAt n u d) as [p |] eqn:Hp; [done |].
    cbv zeta. cbn [snd].
    etrans; [apply (streamAt_insert n) |].
    rewrite decide_False; [done |]. intros [-> ->]. by apply Hne.
Qed.

(** X13.  [GetListener] wakes nobody and leaves the current token and the
    membership index alone.  The streams of the other devices are
    registered as the sweep left them, and every cell of the store other
    than the listener's own is as it was. *)
Theorem GetListener_frame now req n :
  let r := GetListener now req n in
  roomIDToJoinedUsers r.2 = roomIDToJoinedUsers n
  ∧ CurrentPosition r.2 = CurrentPosition n
  ∧ callEffects (now, Listen req) n = []
  ∧ (∀ u d, ¬ (deviceUserID req = u ∧ deviceDeviceID req = d) →
       streamAt r.2 u d = streamAt (removeEmptyUserStreams now n) u d)
  ∧ (∀ l q, r.1 = Some l → q ≠ userStream l →
       heap r.2 !! q = heap n !! q).
Proof.
  intros r. unfold r.
  destruct (removeEmptyUserStreams_frame now n) as (Hr & Hc & Hh).
  split; [| split; [apply GetListener_currPos |]].
  - rewrite GetListener_run. cbv zeta.
    by destruct (streamAt (removeEmptyUserStreams now n) (deviceUserID req)
                   (deviceDeviceID req)).
  - split; [done |]. split; [intros u d; apply GetListener_other |].
    intros l q. rewrite GetListener_run. cbv zeta.
    destruct (streamAt (removeEmptyUserStreams now n) (deviceUserID req)
                (deviceDeviceID req)) as [p |];
      cbn [fst snd streamListener heap setHeap setStreams];
      intros [= <-]; cbn [userStream]; intros Hq.
    + rewrite lookup_alter_ne by done. by rewrite Hh.
    + rewrite lookup_alter_ne, lookup_insert_ne by done. done.
Qed.

(** ** Joining and leaving, then receiving *)

(** X14.  Once [OnNewEvent] has processed the join of a user to a room,
    the next event of that room wakes the user: every stream registered
    for the joiner is sent the new current token. *)
Theorem joiner_receives_room_events now1 now2 e e2 roomID1 userIDs1
    roomID2 userIDs2 posUpdate1 posUpdate2 n target d p :
  Type_ e = MRoomMember → StateKey e = Some target →
  Membership e = Some Join → RoomID e2 = RoomID e →
  let n1 := (OnNewEvent now1 (Some e) roomID1 userIDs1 posUpdate1 n).1 in
  let latest := WithUpdates (currPos n1) posUpdate2 in
  let r := OnNewEvent now2 (Some e2) roomID2 userIDs2 posUpdate2 n1 in
  streamAt r.1 target d = Some p → Woke p latest latest ∈ r.2.
Proof.
  intros Ht Hk Hm Hroom n1 latest r. apply event_wakes_joined.
  rewrite Hroom.
  pose proof (OnNewEvent_event_rooms now1 e roomID1 userIDs1 posUpdate1 n)
    as Hrooms. fold n1 in Hrooms.
  rewrite (joinedUsers_frame _ _ (RoomID e) Hrooms).
  destruct (routeEvent_cases e (advanced now1 posUpdate1 n))
    as [[Hno _] | (t & Hk' & _ & [[_ ->] | [[Hl | Hb] _]])].
  - exfalso. apply Hno. split; [done |]. split; [by rewrite Hk |]. by left.
  - assert (t = target) as -> by congruence.
    apply joinedUsers_addJoinedUser.
  - rewrite Hm in Hl. discriminate Hl.
  - rewrite Hm in Hb. discriminate Hb.
Qed.

(** X15.  Once [OnNewEvent] has processed the leave or the ban of a user,
    the next event of that room does not wake the user, unless the event
    names the user in its state key: no stream registered for the leaver
    is broadcast to. *)
Theorem leaver_stops_receiving now1 now2 e e2 roomID1 userIDs1
    roomID2 userIDs2 posUpdate1 posUpdate2 n target d p :
  reachable n →
  Type_ e = MRoomMember → StateKey e = Some target →
  Membership e = Some Leave ∨ Membership e = Some Ban →
  RoomID e2 = RoomID e → StateKey e2 ≠ Some target →
  let n1 := (OnNewEvent now1 (Some e) roomID1 userIDs1 posUpdate1 n).1 in
  let r := OnNewEvent now2 (Some e2) roomID2 userIDs2 posUpdate2 n1 in
  streamAt r.1 target d = Some p → p ∉ woken r.2.
Proof.
  intros Hn Ht Hk Hm Hroom Hk2 n1 r Hp Hw.
  assert (target ∉ joinedUsers n1 (RoomID e)) as Hleft.
  { pose proof (OnNewEvent_event_rooms now1 e roomID1 userIDs1 posUpdate1 n)
      as Hrooms. fold n1 in Hrooms.
    rewrite (joinedUsers_frame _ _ (RoomID e) Hrooms).
    destruct (routeEvent_cases e (advanced now1 posUpdate1 n))
      as [[Hno _] | (t & Hk' & _ & [[Hj _] | [_ ->]])].
    - exfalso. apply Hno. split; [done |]. split; [by rewrite Hk |].
      right. done.
    - destruct Hm as [Hm | Hm]; rewrite Hm in Hj; discriminate Hj.
    - assert (t = target) as -> by congruence.
      apply joinedUsers_removeJoinedUser. }
  assert (registryOK n1) as Hok1.
  { apply (registryOK_call (now1, Produce (NewEvent (Some e) roomID1 userIDs1
                                             posUpdate1)) n).
    by apply reachable_registryOK. }
  assert (registryOK (advanced now2 posUpdate2 n1)) as Hok2.
  { apply (registryOK_shrink n1); [apply advanced_streamAt | | done].
    destruct (advanced_frame now2 posUpdate2 n1) as (_ & _ & ->).
    apply sameIdentity_refl. }
  pose proof (OnNewEvent_event_streams now2 e2 roomID2 userIDs2 posUpdate2 n1)
    as Hs. fold r in Hs. rewrite (streamAt_frame _ _ target d Hs) in Hp.
  unfold r in Hw. rewrite OnNewEvent_event in Hw. cbn [snd] in Hw.
  rewrite woken_app, woken_routed, woken_Woke, app_nil_l in Hw.
  apply elem_of_streamsOf in Hw as (u & d' & Hu & Hd').
  destruct (Hok2 _ _ _ Hp) as (s & Hs1 & Hu1 & Hd1).
  destruct (Hok2 _ _ _ Hd') as (s' & Hs2 & Hu2 & Hd2).
  assert (u = target) as -> by congruence.
  unfold usersToNotify in Hu.
  destruct (routeEvent_users e2 (advanced now2 posUpdate2 n1))
    as (extra & Heq & Hextra).
  rewrite Heq in Hu. apply elem_of_app in Hu as [Hu | Hu].
  - apply Hleft. rewrite <- Hroom.
    destruct (advanced_frame now2 posUpdate2 n1) as (Hpre & _).
    by rewrite <- (joinedUsers_frame _ _ (RoomID e2) Hpre).
  - destruct Hextra as [-> | (t & _ & Hk2' & ->)].
    + by apply elem_of_nil in Hu.
    + apply list_elem_of_singleton in Hu. subst t. done.
Qed.

(** * Properties of the configuration checks *)

Section ConfigChecks.
Variable quoted : string → string.
Variable quotedInt : Z → string.
Variable decimal : Z → string.

Lemma checkLogging_errors (hooks : list Config.LogrusHook) v errs :
  Config.checkLogging quoted (Config.MkDendrite v hooks) errs
  = errs ++ (hooks ≫= Config.hookErrors quoted).
Proof.
  unfold Config.checkLogging. cbn [Config.Logging]. revert errs.
  induction hooks as [| h hooks IH]; intros errs.
  - cbn. by rewrite app_nil_r.
  - cbn [foldl]. rewrite IH. cbn [mbind list_bind].
    rewrite (assoc_L (++)). f_equal.
    unfold Config.checkNotEmpty, Config.hookErrors, Config.Add.
    repeat case_decide; by rewrite <- ?(assoc_L (++)), ?app_nil_r.
Qed.

Lemma hookErrors_nil h :
  Config.hookErrors quoted h = []
  ↔ Config.Type_ h ≠ "" ∧ Config.Level h ≠ "".
Proof.
  unfold Config.hookErrors. repeat case_decide; cbn; split;
    try done; try (by intros [? ?]).
Qed.

(** X16.  [check] accepts a configuration (returns the nil error)
    exactly when its version is the current one and every logging hook
    has a type and a level. *)
Theorem check_accepts_iff config :
  Config.check quoted quotedInt config = None
  ↔ Config.Version_ config = Config.Version
    ∧ Forall (λ h, Config.Type_ h ≠ "" ∧ Config.Level h ≠ "")
             (Config.Logging config).
Proof.
  destruct config as [v hooks]. unfold Config.check.
  cbn [Config.Version_ Config.Logging]. case_decide as Hv.
  { split; [done |]. by intros [? _]. }
  rewrite checkLogging_errors, app_nil_l.
  split.
  - intros Hnone. split; [done |].
    assert (hooks ≫= Config.hookErrors quoted = []) as Hnil.
    { by destruct (hooks ≫= Config.hookErrors quoted). }
    clear Hnone. induction hooks as [| h hooks IH]; [constructor |].
    cbn [mbind list_bind] in Hnil. apply app_eq_nil in Hnil as [Hh Hrest].
    constructor; [by apply hookErrors_nil | by apply IH].
  - intros [_ Hall].
    assert (hooks ≫= Config.hookErrors quoted = []) as ->; [| done].
    induction Hall as [| h hooks Hh _ IH]; [done |].
    cbn [mbind list_bind]. rewrite IH, app_nil_r.
    by apply hookErrors_nil.
Qed.

(** X17.  The errors [check] returns are never an empty list, so that
    [Error] on them does not index out of range.  On a version
    mismatch it is the one version error, whatever the logging hooks;
    otherwise it is, hook by hook and in order, a missing type and then
    a missing level. *)
Theorem check_errors config errs :
  Config.check quoted quotedInt config = Some errs →
  errs ≠ []
  ∧ is_Some (Config.Error decimal errs)
  ∧ ((Config.Version_ config ≠ Config.Version ∧ length errs = 1%nat)
     ∨ (Config.Version_ config = Config.Version
        ∧ errs = Config.Logging config ≫= Config.hookErrors quoted)).
Proof.
  destruct config as [v hooks]. unfold Config.check.
  cbn [Config.Version_ Config.Logging]. intros Hcheck.
  assert (errs ≠ []
          ∧ ((v ≠ Config.Version ∧ length errs = 1%nat)
             ∨ (v = Config.Version
                ∧ errs = hooks ≫= Config.hookErrors quoted)))
    as [Hne Hcase].
  { case_decide as Hv.
    - injection Hcheck as <-. split; [done |]. by left.
    - rewrite checkLogging_errors, app_nil_l in Hcheck.
      destruct (hooks ≫= Config.hookErrors quoted) as [| e l] eqn:Hl;
        [done |].
      injection Hcheck as <-. split; [done |]. by right. }
  split; [done |]. split; [| done].
  destruct errs as [| e [| e' l]]; [done | by eexists | by eexists].
Qed.
End ConfigChecks.

(** ** Concrete checks of the further properties *)

Lemma index_changes_only_on_transition_witness :
  (∀ ev roomID userIDs posUpdate,
     NewEvent (Some (memberEvent "@u2" (Some Invite))) "" [] (MkToken 5 0 0)
     = NewEvent (Some ev) roomID userIDs posUpdate → ¬ isTransition ev)
  ∧ roomIDToJoinedUsers
      (ingress 1 (NewEvent (Some (memberEvent "@u2" (Some Invite))) "" []
                    (MkToken 5 0 0)) sampleNotifier).1
    = roomIDToJoinedUsers sampleNotifier.
Proof.
  assert (∀ ev roomID userIDs posUpdate,
            NewEvent (Some (memberEvent "@u2" (Some Invite))) "" []
              (MkToken 5 0 0)
            = NewEvent (Some ev) roomID userIDs posUpdate →
            ¬ isTransition ev) as Hno.
  { intros ev roomID userIDs posUpdate [= <- _ _ _].
    intros (_ & _ & [H | [H | H]]); discriminate H. }
  split; [exact Hno |].
  exact (index_changes_only_on_transition 1 _ sampleNotifier Hno).
Defined.

Lemma room_event_wakes_joined_witness :
  "@u1" ∈ joinedUsers sampleNotifier (RoomID messageEvent)
  ∧ streamAt (OnNewEvent 1 (Some messageEvent) "" [] (MkToken 6 0 0)
                sampleNotifier).1 "@u1" "d1" = Some 1%positive
  ∧ Woke 1%positive (MkToken 6 0 0) (MkToken 6 0 0)
    ∈ (OnNewEvent 1 (Some messageEvent) "" [] (MkToken 6 0 0)
         sampleNotifier).2.
Proof.
  assert ("@u1" ∈ joinedUsers sampleNotifier (RoomID messageEvent)) as Hu.
  { apply (bool_decide_unpack _). vm_compute. exact I. }
  assert (streamAt (OnNewEvent 1 (Some messageEvent) "" [] (MkToken 6 0 0)
                      sampleNotifier).1 "@u1" "d1" = Some 1%positive) as Hd.
  { vm_compute. reflexivity. }
  split; [exact Hu |]. split; [exact Hd |].
  exact (room_event_wakes_joined 1 messageEvent "" [] (MkToken 6 0 0)
           sampleNotifier "@u1" "d1" 1%positive Hu Hd).
Defined.

Lemma dropped_stream_never_woken_witness :
  let n := removeEmptyUserStreams (6 * Minute) sampleNotifier in
  let cs := [(6 * Minute + 1, Listen (MkRequest "@u1" "d1"));
             (6 * Minute + 2,
              Produce (NewKeyChange (MkToken 0 0 1) "@u1" "@u1"))] in
  1%positive ∈ dom (heap n)
  ∧ (1%positive ∉ registeredStreams n)
  ∧ (1%positive ∉ registeredStreams (calls cs n))
  ∧ 1%positive ∉ woken (effects cs n).
Proof.
  intros n cs.
  assert (1%positive ∈ dom (heap n)) as Hp.
  { apply (bool_decide_unpack _). vm_compute. exact I. }
  assert (1%positive ∉ registeredStreams n) as Hno.
  { apply (bool_decide_unpack _). vm_compute. exact I. }
  split; [exact Hp |]. split; [exact Hno |].
  exact (dropped_stream_never_woken cs n 1%positive Hp Hno).
Defined.

Lemma evicted_stream_replaced_witness :
  reachable sampleNotifier
  ∧ streamAt (removeEmptyUserStreams (6 * Minute)
                (GetListener 1 (MkRequest "@u1" "d1") sampleNotifier).2)
             "@u1" "d1" = None
  ∧ ∃ l1 l2,
      (GetListener 1 (MkRequest "@u1" "d1") sampleNotifier).1 = Some l1
      ∧ (GetListener (6 * Minute) (MkRequest "@u1" "d1")
           (GetListener 1 (MkRequest "@u1" "d1") sampleNotifier).2).1
        = Some l2
      ∧ userStream l2 ≠ userStream l1
      ∧ userStream l1
        ∉ registeredStreams
            (GetListener (6 * Minute) (MkRequest "@u1" "d1")
               (GetListener 1 (MkRequest "@u1" "d1") sampleNotifier).2).2.
Proof.
  assert (reachable sampleNotifier) as Hn.
  { unfold sampleNotifier. apply reachable_calls. constructor. }
  assert (streamAt (removeEmptyUserStreams (6 * Minute)
                      (GetListener 1 (MkRequest "@u1" "d1")
                         sampleNotifier).2)
                   "@u1" "d1" = None) as Hnone.
  { vm_compute. reflexivity. }
  split; [exact Hn |]. split; [exact Hnone |].
  exact (evicted_stream_replaced 1 (6 * Minute) (MkRequest "@u1" "d1") []
           sampleNotifier Hn Hnone).
Defined.

Lemma joiner_receives_room_events_witness :
  streamAt
    (OnNewEvent 2 (Some messageEvent) "" [] (MkToken 6 0 0)
       (OnNewEvent 1 (Some (memberEvent "@u2" (Some Join))) "" []
          (MkToken 5 0 0) sampleNotifier).1).1 "@u2" "d1"
  = Some 3%positive
  ∧ Woke 3%positive (MkToken 6 0 0) (MkToken 6 0 0)
    ∈ (OnNewEvent 2 (Some messageEvent) "" [] (MkToken 6 0 0)
         (OnNewEvent 1 (Some (memberEvent "@u2" (Some Join))) "" []
            (MkToken 5 0 0) sampleNotifier).1).2.
Proof.
  assert (streamAt
            (OnNewEvent 2 (Some messageEvent) "" [] (MkToken 6 0 0)
               (OnNewEvent 1 (Some (memberEvent "@u2" (Some Join))) "" []
                  (MkToken 5 0 0) sampleNotifier).1).1 "@u2" "d1"
          = Some 3%positive) as Hd.
  { vm_compute. reflexivity. }
  split; [exact Hd |].
  exact (joiner_receives_room_events 1 2 (memberEvent "@u2" (Some Join))
           messageEvent "" [] "" [] (MkToken 5 0 0) (MkToken 6 0 0)
           sampleNotifier "@u2" "d1" 3%positive
           eq_refl eq_refl eq_refl eq_refl Hd).
Defined.

Lemma leaver_stops_receiving_witness :
  reachable sampleNotifier
  ∧ streamAt
      (OnNewEvent 2 (Some messageEvent) "" [] (MkToken 6 0 0)
         (OnNewEvent 1 (Some (memberEvent "@u1" (Some Leave))) "" []
            (MkToken 5 0 0) sampleNotifier).1).1 "@u1" "d1"
    = Some 1%positive
  ∧ 1%positive
    ∉ woken (OnNewEvent 2 (Some messageEvent) "" [] (MkToken 6 0 0)
               (OnNewEvent 1 (Some (memberEvent "@u1" (Some Leave))) "" []
                  (MkToken 5 0 0) sampleNotifier).1).2.
Proof.
  assert (reachable sampleNotifier) as Hn.
  { unfold sampleNotifier. apply reachable_calls. constructor. }
  assert (streamAt
            (OnNewEvent 2 (Some messageEvent) "" [] (MkToken 6 0 0)
               (OnNewEvent 1 (Some (memberEvent "@u1" (Some Leave))) "" []
                  (MkToken 5 0 0) sampleNotifier).1).1 "@u1" "d1"
          = Some 1%positive) as Hd.
  { vm_compute. reflexivity. }
  assert (StateKey messageEvent ≠ Some "@u1") as Hk by discriminate.
  split; [exact Hn |]. split; [exact Hd |].
  exact (leaver_stops_receiving 1 2 (memberEvent "@u1" (Some Leave))
           messageEvent "" [] "" [] (MkToken 5 0 0) (MkToken 6 0 0)
           sampleNotifier "@u1" "d1" 1%positive
           Hn eq_refl eq_refl (or_introl eq_refl) eq_refl Hk Hd).
Defined.

Lemma check_errors_witness :
  let quoted := λ s : string, s in
  let shown := λ _ : Z, "?" in
  let config := Config.MkDendrite 1 [Config.MkHook "" "info";
                                     Config.MkHook "file" ""] in
  let errs := ["missing config key logging.type";
               "missing config key logging.level"] in
  Config.check quoted shown config = Some errs
  ∧ is_Some (Config.Error shown errs)
  ∧ errs = Config.Logging config ≫= Config.hookErrors quoted.
Proof.
  intros quoted shown config errs.
  assert (Config.check quoted shown config = Some errs) as Hc
    by reflexivity.
  split; [exact Hc |].
  destruct (check_errors quoted shown shown config errs Hc)
    as (_ & Herr & Hcase).
  split; [exact Herr |]. reflexivity.
Defined.

Lemma member_event_touches_only_target_witness :
  ¬ ("!r1" = RoomID (memberEvent "@u2" (Some Join))
     ∧ StateKey (memberEvent "@u2" (Some Join)) = Some "@u1")
  ∧ ("@u1" ∈ joinedUsers
        (OnNewEvent 1 (Some (memberEvent "@u2" (Some Join))) "" []
           (MkToken 5 0 0) sampleNotifier).1 "!r1"
     ↔ "@u1" ∈ joinedUsers sampleNotifier "!r1").
Proof.
  assert (¬ ("!r1" = RoomID (memberEvent "@u2" (Some Join))
             ∧ StateKey (memberEvent "@u2" (Some Join)) = Some "@u1"))
    as Hne.
  { intros [_ Hk]. discriminate Hk. }
  split; [exact Hne |].
  exact (member_event_touches_only_target 1 (memberEvent "@u2" (Some Join))
           "" [] (MkToken 5 0 0) sampleNotifier "!r1" "@u1" Hne).
Defined.
